(** * Mindful breathing: the session/phase timing engine of [App]

    A shallow embedding of the React component [App] (state hooks, refs,
    effects, event handlers and timer callbacks) together with the small part
    of the browser it talks to: the timer table behind [setInterval] /
    [setTimeout], the [localStorage] entry [meditation_count] and the Web
    Audio context.

    Conventions of the embedding.
    - Time is counted in milliseconds; [ms_step] lets one millisecond pass and
      runs the timers that became due, oldest registration first.
    - One event (a click or one timer callback) is processed atomically: the
      handler runs, React renders the batched state, and the effects whose
      dependencies changed run, before the next event is looked at.
    - A closure is represented by the values it captured at the render that
      created it; handlers read the render's state, never the pending one.
    - JavaScript numbers are exact integers plus [NaN]; this is the behaviour
      of doubles below 2^53, which a session counter does not leave.
    - An audio call may throw; an uncaught exception ends the computation
      with [Throw] and the world as the statements before it left it.  What
      React does with the error afterwards is outside the model.
    - A timer registered with delay zero runs one millisecond late; the
      component never registers one (its delays are 1000 ms and more). *)

From Stdlib Require Import ZArith List Bool String Ascii Lia.
From Stdlib Require Import Decimal DecimalString DecimalZ.
Import ListNotations.
Local Open Scope Z_scope.

(** ** JavaScript values used by the component *)

Module JS.

Inductive number : Type :=
| NaN
| Num (z : Z).

(** [n + 1] *)
Definition succ (n : number) : number :=
  match n with
  | NaN => NaN
  | Num z => Num (z + 1)
  end.

(** [n.toString()] for an integral number *)
Definition toString (n : number) : string :=
  match n with
  | NaN => "NaN"%string
  | Num z => NilZero.string_of_int (Z.to_int z)
  end.

(** White space skipped by [parseInt] (the ASCII part of it). *)
Definition isWhite (c : ascii) : bool :=
  let n := nat_of_ascii c in
  (Nat.eqb n 32 || (Nat.leb 9 n && Nat.leb n 13))%bool.

Fixpoint skipWhite (s : string) : string :=
  match s with
  | String c r => if isWhite c then skipWhite r else s
  | EmptyString => s
  end.

Definition digit_of (c : ascii) : option (uint -> uint) :=
  match c with
  | "0"%char => Some D0
  | "1"%char => Some D1
  | "2"%char => Some D2
  | "3"%char => Some D3
  | "4"%char => Some D4
  | "5"%char => Some D5
  | "6"%char => Some D6
  | "7"%char => Some D7
  | "8"%char => Some D8
  | "9"%char => Some D9
  | _ => None
  end.

(** The longest prefix of decimal digits. *)
Fixpoint digits (s : string) : uint :=
  match s with
  | String c r =>
      match digit_of c with
      | Some d => d (digits r)
      | None => Nil
      end
  | EmptyString => Nil
  end.

(** [parseInt(s, 10)]: leading white space, an optional sign, then the
    longest run of digits; [NaN] when that run is empty. *)
Definition parseInt (s : string) : number :=
  let s1 := skipWhite s in
  let '(neg, s2) :=
    match s1 with
    | String "-"%char r => (true, r)
    | String "+"%char r => (false, r)
    | _ => (false, s1)
    end in
  match digits s2 with
  | Nil => NaN
  | u => Num (if neg then - Z.of_uint u else Z.of_uint u)
  end.

(** Truthiness of [string | null]: [null] and the empty string are falsy. *)
Definition truthy_string (v : option string) : bool :=
  match v with
  | Some (String _ _) => true
  | _ => false
  end.

(** Truthiness of [number | null] for a timer handle. *)
Definition truthy_handle (v : option Z) : bool :=
  match v with
  | Some id => negb (id =? 0)
  | None => false
  end.

End JS.

(** ** Constants, state and closures of [App] *)

Definition INITIAL_TIME : Z := 300.
Definition INHALE_TIME : Z := 4.
Definition EXHALE_TIME : Z := 4.

(** The values offered by the hold duration selector. *)
Definition holdOptions : list Z := [1; 2; 4].

Inductive BreathPhase : Type := Ready | Inhale | Hold | Exhale | Complete.

Definition phase_eqb (p q : BreathPhase) : bool :=
  match p, q with
  | Ready, Ready | Inhale, Inhale | Hold, Hold
  | Exhale, Exhale | Complete, Complete => true
  | _, _ => false
  end.

(** The six [useState] cells. *)
Record State : Type := mkState {
  timeLeft : Z;
  isActive : bool;
  phase : BreathPhase;
  holdDuration : Z;
  totalSessions : JS.number;
  showCelebration : bool
}.

Inductive OscillatorType : Type := sine | triangle.

(** Timer callbacks, each with the variables its closure captured. *)
Inductive Callback : Type :=
| CbTick (capturedTotal : JS.number)
| CbAfterInhale (capturedActive : bool) (capturedHold : Z)
| CbAfterHold (capturedActive : bool) (capturedHold : Z)
| CbAfterExhale (capturedActive : bool) (capturedHold : Z).

Inductive TimerKind : Type :=
| Timeout
| Interval (period : Z).

Record Timer : Type := mkTimer {
  tid : Z;
  due : Z;
  kind : TimerKind;
  callback : Callback
}.

(** How the audio platform behaves. *)
Record Platform : Type := mkPlatform {
  ctorThrows : bool;   (* [new AudioContext()] throws *)
  nodesThrow : bool;   (* creating or wiring the oscillator throws *)
  suspended : bool     (* [ctx.state === 'suspended'] *)
}.

Record World : Type := mkWorld {
  st : State;
  audioContextRef : bool;            (* [false] is [null] *)
  timerIntervalRef : option Z;
  phaseTimeoutRef : option Z;
  timers : list Timer;               (* pending timers, oldest first *)
  nextId : Z;
  now : Z;
  meditation_count : option string;  (* the [localStorage] entry *)
  platform : Platform;
  tones : list (Z * OscillatorType)  (* oscillators started so far *)
}.

Definition upd_st (f : State -> State) (w : World) : World :=
  mkWorld (f (st w)) (audioContextRef w) (timerIntervalRef w)
    (phaseTimeoutRef w) (timers w) (nextId w) (now w) (meditation_count w)
    (platform w) (tones w).

Definition upd_audioContextRef (v : bool) (w : World) : World :=
  mkWorld (st w) v (timerIntervalRef w)
    (phaseTimeoutRef w) (timers w) (nextId w) (now w) (meditation_count w)
    (platform w) (tones w).

Definition upd_timerIntervalRef (v : option Z) (w : World) : World :=
  mkWorld (st w) (audioContextRef w) v
    (phaseTimeoutRef w) (timers w) (nextId w) (now w) (meditation_count w)
    (platform w) (tones w).

Definition upd_phaseTimeoutRef (v : option Z) (w : World) : World :=
  mkWorld (st w) (audioContextRef w) (timerIntervalRef w)
    v (timers w) (nextId w) (now w) (meditation_count w)
    (platform w) (tones w).

Definition upd_timers (f : list Timer -> list Timer) (w : World) : World :=
  mkWorld (st w) (audioContextRef w) (timerIntervalRef w)
    (phaseTimeoutRef w) (f (timers w)) (nextId w) (now w) (meditation_count w)
    (platform w) (tones w).

Definition upd_nextId (v : Z) (w : World) : World :=
  mkWorld (st w) (audioContextRef w) (timerIntervalRef w)
    (phaseTimeoutRef w) (timers w) v (now w) (meditation_count w)
    (platform w) (tones w).

Definition upd_now (v : Z) (w : World) : World :=
  mkWorld (st w) (audioContextRef w) (timerIntervalRef w)
    (phaseTimeoutRef w) (timers w) (nextId w) v (meditation_count w)
    (platform w) (tones w).

Definition upd_meditation_count (v : option string) (w : World) : World :=
  mkWorld (st w) (audioContextRef w) (timerIntervalRef w)
    (phaseTimeoutRef w) (timers w) (nextId w) (now w) v
    (platform w) (tones w).

Definition upd_tones
  (f : list (Z * OscillatorType) -> list (Z * OscillatorType)) (w : World)
  : World :=
  mkWorld (st w) (audioContextRef w) (timerIntervalRef w)
    (phaseTimeoutRef w) (timers w) (nextId w) (now w) (meditation_count w)
    (platform w) (f (tones w)).

(** ** Computations: world passing with uncaught exceptions *)

Inductive Exn : Type := TypeError | AudioError.

Inductive Outcome (A : Type) : Type :=
| Ret (a : A) (w : World)
| Throw (e : Exn) (w : World).
Arguments Ret {A} a w.
Arguments Throw {A} e w.

Definition M (A : Type) : Type := World -> Outcome A.

Definition ret {A} (a : A) : M A := fun w => Ret a w.

Definition bind {A B} (m : M A) (k : A -> M B) : M B :=
  fun w =>
    match m w with
    | Ret a w' => k a w'
    | Throw e w' => Throw e w'
    end.

Definition throw {A} (e : Exn) : M A := fun w => Throw e w.

Definition modify (f : World -> World) : M unit := fun w => Ret tt (f w).

(** Branch on something read from the current world. *)
Definition when_ (c : World -> bool) (m : M unit) : M unit :=
  fun w => if c w then m w else Ret tt w.

Notation "x <- m ;; k" := (bind m (fun x => k))
  (at level 61, m at next level, right associativity).
Notation "m ;; k" := (bind m (fun _ => k))
  (at level 61, right associativity).

(** The world an outcome ends in, thrown or not. *)
Definition final {A} (o : Outcome A) : World :=
  match o with
  | Ret _ w => w
  | Throw _ w => w
  end.

Definition returns {A} (o : Outcome A) : bool :=
  match o with
  | Ret _ _ => true
  | Throw _ _ => false
  end.

(** *** State setters (batched by React until the render) *)

Definition setTimeLeft (v : Z) : M unit :=
  modify (upd_st (fun s =>
    mkState v (isActive s) (phase s) (holdDuration s) (totalSessions s)
      (showCelebration s))).

Definition setIsActive (v : bool) : M unit :=
  modify (upd_st (fun s =>
    mkState (timeLeft s) v (phase s) (holdDuration s) (totalSessions s)
      (showCelebration s))).

Definition setPhase (v : BreathPhase) : M unit :=
  modify (upd_st (fun s =>
    mkState (timeLeft s) (isActive s) v (holdDuration s) (totalSessions s)
      (showCelebration s))).

Definition setHoldDuration (v : Z) : M unit :=
  modify (upd_st (fun s =>
    mkState (timeLeft s) (isActive s) (phase s) v (totalSessions s)
      (showCelebration s))).

Definition setTotalSessions (v : JS.number) : M unit :=
  modify (upd_st (fun s =>
    mkState (timeLeft s) (isActive s) (phase s) (holdDuration s) v
      (showCelebration s))).

Definition setShowCelebration (v : bool) : M unit :=
  modify (upd_st (fun s =>
    mkState (timeLeft s) (isActive s) (phase s) (holdDuration s)
      (totalSessions s) v)).

(** *** Browser timers *)

(** [window.setTimeout] / [window.setInterval]: a fresh handle, the timer
    queued behind the pending ones; a negative delay counts as zero. *)
Definition setTimer (k : TimerKind) (cb : Callback) (delay : Z) : M Z :=
  fun w =>
    let id := nextId w in
    Ret id
      (upd_nextId (id + 1)
         (upd_timers
            (fun ts => ts ++ [mkTimer id (now w + Z.max 0 delay) k cb]) w)).

Definition setTimeout (cb : Callback) (delay : Z) : M Z :=
  setTimer Timeout cb delay.

Definition setInterval (cb : Callback) (delay : Z) : M Z :=
  setTimer (Interval (Z.max 0 delay)) cb delay.

(** [clearTimeout] and [clearInterval] share the handle space; clearing a
    handle that is no longer pending does nothing. *)
Definition clearTimer (id : Z) : M unit :=
  modify (upd_timers (filter (fun t => negb (tid t =? id)))).

Definition clearHandle (h : option Z) : M unit :=
  match h with
  | Some id => clearTimer id
  | None => ret tt
  end.

(** [if (ref.current) clearTimeout(ref.current)] *)
Definition clearPhaseTimeout : M unit :=
  fun w =>
    if JS.truthy_handle (phaseTimeoutRef w)
    then clearHandle (phaseTimeoutRef w) w
    else Ret tt w.

(** [if (ref.current) clearInterval(ref.current)] *)
Definition clearTimerInterval : M unit :=
  fun w =>
    if JS.truthy_handle (timerIntervalRef w)
    then clearHandle (timerIntervalRef w) w
    else Ret tt w.

(** *** Audio *)

(** [audioContextRef.current = new (window.AudioContext || ...)()] *)
Definition newAudioContext : M unit :=
  fun w =>
    if ctorThrows (platform w) then Throw TypeError w
    else Ret tt (upd_audioContextRef true w).

(** [if (!audioContextRef.current) { ... = new ...() }] *)
Definition ensureAudioContext : M unit :=
  fun w => if audioContextRef w then Ret tt w else newAudioContext w.

(** [ctx.resume()]: asynchronous, its result is never read. *)
Definition resume : M unit := ret tt.

(** [createOscillator], [createGain], the ramps and the connections. *)
Definition createNodes : M unit :=
  fun w => if nodesThrow (platform w) then Throw AudioError w else Ret tt w.

(** [osc.start(); osc.stop(...)] *)
Definition startOscillator (freq : Z) (type : OscillatorType) : M unit :=
  modify (upd_tones (fun l => l ++ [(freq, type)])).

Definition playBeep (freq : Z) (type : OscillatorType) : M unit :=
  ensureAudioContext ;;
  when_ (fun w => suspended (platform w)) resume ;;
  createNodes ;;
  startOscillator freq type.

(** *** Handlers *)

Definition resetSession : M unit :=
  setTimeLeft INITIAL_TIME ;;
  setPhase Ready ;;
  setShowCelebration false ;;
  setIsActive false.

(** [cur] is the state of the render whose closure runs. *)
Definition handleStartPause (cur : State) : M unit :=
  ensureAudioContext ;;
  if (negb (isActive cur) && (timeLeft cur =? 0))%bool
  then resetSession
  else setIsActive (negb (isActive cur)).

Definition handleReset : M unit :=
  setIsActive false ;;
  setTimeLeft INITIAL_TIME ;;
  setPhase Ready ;;
  setShowCelebration false ;;
  clearPhaseTimeout ;;
  clearTimerInterval.

(** [capturedTotal] is the [totalSessions] of the render that built it. *)
Definition handleComplete (capturedTotal : JS.number) : M unit :=
  setIsActive false ;;
  setPhase Complete ;;
  setShowCelebration true ;;
  playBeep 600 triangle ;;
  let newCount := JS.succ capturedTotal in
  setTotalSessions newCount ;;
  modify (upd_meditation_count (Some (JS.toString newCount))).

(** The hold selector button for [sec]: [!isActive && setHoldDuration(sec)]. *)
Definition handleHoldClick (sec : Z) (cur : State) : M unit :=
  if negb (isActive cur) then setHoldDuration sec else ret tt.

(** *** The breathing cycle *)

Definition startBreathingCycle (capturedActive : bool) (capturedHold : Z)
  : M unit :=
  setPhase Inhale ;;
  playBeep 300 sine ;;
  id <- setTimeout (CbAfterInhale capturedActive capturedHold)
          (INHALE_TIME * 1000) ;;
  modify (upd_phaseTimeoutRef (Some id)).

(** The updater passed to [setTimeLeft] by the interval callback; [prev] is
    the pending value. *)
Definition tickUpdater (capturedTotal : JS.number) : M unit :=
  fun w =>
    let prev := timeLeft (st w) in
    if prev <=? 1
    then (handleComplete capturedTotal ;; setTimeLeft 0) w
    else setTimeLeft (prev - 1) w.

Definition runCallback (cb : Callback) : M unit :=
  match cb with
  | CbTick total => tickUpdater total
  | CbAfterInhale a h =>
      if negb a then ret tt
      else
        setPhase Hold ;;
        playBeep 440 sine ;;
        id <- setTimeout (CbAfterHold a h) (h * 1000) ;;
        modify (upd_phaseTimeoutRef (Some id))
  | CbAfterHold a h =>
      if negb a then ret tt
      else
        setPhase Exhale ;;
        playBeep 350 sine ;;
        id <- setTimeout (CbAfterExhale a h) (EXHALE_TIME * 1000) ;;
        modify (upd_phaseTimeoutRef (Some id))
  | CbAfterExhale a h =>
      if negb a then ret tt
      else startBreathingCycle a h
  end.

(** *** Effects *)

(** The first effect, dependencies []. *)
Definition initEffect : M unit :=
  fun w =>
    let saved := meditation_count w in
    if JS.truthy_string saved
    then
      match saved with
      | Some s => setTotalSessions (JS.parseInt s) w
      | None => Ret tt w
      end
    else Ret tt w.

(** The timer effect, dependencies [isActive, timeLeft]; [cur] is the
    rendered state. *)
Definition timerEffect (cur : State) : M unit :=
  if (isActive cur && (timeLeft cur >? 0))%bool
  then
    id <- setInterval (CbTick (totalSessions cur)) 1000 ;;
    modify (upd_timerIntervalRef (Some id))
  else clearTimerInterval.

Definition timerCleanup : M unit := clearTimerInterval.

(** The start/pause effect, dependencies [isActive]. *)
Definition phaseEffect (cur : State) : M unit :=
  if (isActive cur && phase_eqb (phase cur) Ready)%bool
  then startBreathingCycle (isActive cur) (holdDuration cur)
  else if negb (isActive cur) then clearPhaseTimeout
  else ret tt.

Definition timerDepsChanged (prev cur : State) : bool :=
  negb (Bool.eqb (isActive prev) (isActive cur)
        && (timeLeft prev =? timeLeft cur))%bool.

Definition phaseDepsChanged (prev cur : State) : bool :=
  negb (Bool.eqb (isActive prev) (isActive cur)).

(** Render and commit after a batch of updates: [prev] is the state of the
    previous render.  Cleanups of the changed effects run first, then their
    bodies in declaration order.  The bodies only set [phase], which no
    dependency list mentions, so the render they trigger runs no effect. *)
Definition commit (prev : State) : M unit :=
  fun w =>
    let cur := st w in
    ((if timerDepsChanged prev cur then timerCleanup else ret tt) ;;
     (if timerDepsChanged prev cur then timerEffect cur else ret tt) ;;
     (if phaseDepsChanged prev cur then phaseEffect cur else ret tt)) w.

(** Run a handler of the current render, then render and commit. *)
Definition dispatch (handler : State -> M unit) : M unit :=
  fun w =>
    let prev := st w in
    (handler prev ;; commit prev) w.

(** *** The passage of time *)

Definition reschedule (id : Z) (t : Timer) : Timer :=
  if tid t =? id
  then
    match kind t with
    | Interval p => mkTimer (tid t) (due t + p) (kind t) (callback t)
    | Timeout => t
    end
  else t.

(** Run the timer [id] if it is still pending: a timeout leaves the table,
    an interval is rescheduled, then the callback is dispatched. *)
Definition fire (id : Z) : M unit :=
  fun w =>
    match find (fun t => tid t =? id) (timers w) with
    | None => Ret tt w
    | Some t =>
        let w1 :=
          match kind t with
          | Timeout => upd_timers (filter (fun t' => negb (tid t' =? id))) w
          | Interval _ => upd_timers (map (reschedule id)) w
          end in
        dispatch (fun _ => runCallback (callback t)) w1
    end.

Fixpoint fireAll (ids : list Z) : M unit :=
  match ids with
  | [] => ret tt
  | id :: rest => fire id ;; fireAll rest
  end.

Definition dueIds (w : World) : list Z :=
  map tid (filter (fun t => due t <=? now w) (timers w)).

(** One millisecond passes. *)
Definition ms_step : M unit :=
  fun w =>
    let w1 := upd_now (now w + 1) w in
    fireAll (dueIds w1) w1.

(** [ms] milliseconds pass. *)
Definition elapse (ms : N) : M unit :=
  N.iter ms (fun k => ms_step ;; k) (ret tt).

(** *** Mounting and user intents *)

Definition initialState : State :=
  mkState INITIAL_TIME false Ready 1 (JS.Num 0) false.

Definition initialWorld (stored : option string) (p : Platform) : World :=
  mkWorld initialState false None None [] 1 0 stored p [].

(** First render: every effect runs once, in declaration order. *)
Definition mount : M unit :=
  fun w =>
    let cur := st w in
    (initEffect ;; timerEffect cur ;; phaseEffect cur) w.

Inductive Event : Type :=
| ClickStartPause
| ClickReset
| ClickDone
| ClickHold (sec : Z)
| Elapse (ms : N).

Definition step (e : Event) : M unit :=
  match e with
  | ClickStartPause => dispatch handleStartPause
  | ClickReset => dispatch (fun _ => handleReset)
  | ClickDone => dispatch (fun _ => resetSession)
  | ClickHold sec => dispatch (handleHoldClick sec)
  | Elapse ms => elapse ms
  end.

(** What the rendered screen offers: the Done button exists only on the
    celebration overlay, the hold buttons only for [holdOptions]. *)
Definition offered (e : Event) (w : World) : Prop :=
  match e with
  | ClickDone => showCelebration (st w) = true
  | ClickHold sec => In sec holdOptions
  | _ => True
  end.

Inductive reachable : World -> Prop :=
| reach_mount stored p w :
    mount (initialWorld stored p) = Ret tt w -> reachable w
| reach_step w e w' :
    reachable w -> offered e w -> step e w = Ret tt w' -> reachable w'.

Fixpoint run (es : list Event) : M unit :=
  match es with
  | [] => ret tt
  | e :: rest => step e ;; run rest
  end.

(** ** Vocabulary of the proofs *)

(** No audio call throws (a suspended context is allowed). *)
Definition reliable (p : Platform) : Prop :=
  ctorThrows p = false /\ nodesThrow p = false.

(** [o] returned normally in a world satisfying [P]; it may have thrown only
    if the platform of the start world [w0] is not reliable. *)
Definition post (o : Outcome unit) (w0 : World) (P : World -> Prop) : Prop :=
  match o with
  | Ret _ w' => P w'
  | Throw _ _ => ~ reliable (platform w0)
  end.

Definition nextPhase (p : BreathPhase) : BreathPhase :=
  match p with
  | Inhale => Hold
  | Hold => Exhale
  | Exhale => Inhale
  | _ => p
  end.

(** Length of a phase of the cycle in milliseconds. *)
Definition phaseMs (h : Z) (p : BreathPhase) : Z :=
  match p with
  | Inhale => INHALE_TIME * 1000
  | Hold => h * 1000
  | Exhale => EXHALE_TIME * 1000
  | _ => 0
  end.

Definition cycleMs (h : Z) : Z :=
  INHALE_TIME * 1000 + h * 1000 + EXHALE_TIME * 1000.


(** The callback that ends phase [p], as [startBreathingCycle] builds it
    in a render where the session is active. *)
Definition seqCallback (p : BreathPhase) (h : Z) : option Callback :=
  match p with
  | Inhale => Some (CbAfterInhale true h)
  | Hold => Some (CbAfterHold true h)
  | Exhale => Some (CbAfterExhale true h)
  | _ => None
  end.

Definition tickTimer (i d : Z) (total : JS.number) : Timer :=
  mkTimer i d (Interval 1000) (CbTick total).

(** The pending phase transition, if any: its handle, the milliseconds
    left, and whether it was registered before the pending interval. *)
Inductive SeqView : Type :=
| SeqOff
| SeqOn (j q : Z) (first : bool).

(** An active session whose interval [i] fires in [r] milliseconds. *)
Definition Pend (w : World) (i r : Z) (sv : SeqView) : Prop :=
  isActive (st w) = true /\
  1 <= timeLeft (st w) <= INITIAL_TIME /\
  In (holdDuration (st w)) holdOptions /\
  timerIntervalRef w = Some i /\
  0 < i < nextId w /\
  let tk := tickTimer i (now w + r) (totalSessions (st w)) in
  match sv with
  | SeqOff => timers w = [tk]
  | SeqOn j q first =>
      exists cb,
        seqCallback (phase (st w)) (holdDuration (st w)) = Some cb /\
        phaseTimeoutRef w = Some j /\
        0 < j < nextId w /\
        j <> i /\
        timers w =
          if first then [mkTimer j (now w + q) Timeout cb; tk]
          else [tk; mkTimer j (now w + q) Timeout cb]
  end.

Definition seqBounds (w : World) (sv : SeqView) : Prop :=
  match sv with
  | SeqOff => True
  | SeqOn _ q _ => 1 <= q <= phaseMs (holdDuration (st w)) (phase (st w))
  end.

Definition Run (w : World) (i r : Z) (sv : SeqView) : Prop :=
  Pend w i r sv /\ 1 <= r <= 1000 /\ seqBounds w sv.

Definition Idle (w : World) : Prop :=
  isActive (st w) = false /\ timers w = [].

Definition Inv (w : World) : Prop :=
  0 <= timeLeft (st w) <= INITIAL_TIME /\
  In (holdDuration (st w)) holdOptions /\
  0 < nextId w /\
  (Idle w \/ exists i r sv, Run w i r sv).

(** Milliseconds into the cycle, read off the pending transition. *)
Definition cyclePos (h : Z) (p : BreathPhase) (q : Z) : Z :=
  match p with
  | Inhale => INHALE_TIME * 1000 - q
  | Hold => INHALE_TIME * 1000 + h * 1000 - q
  | _ => cycleMs h - q
  end.

(** The state [complete()] leaves behind. *)
Definition completedState (s : State) : State :=
  mkState 0 false Complete (holdDuration s) (JS.succ (totalSessions s)) true.

(** The state [reset()] leaves behind. *)
Definition resetState (s : State) : State :=
  mkState INITIAL_TIME false Ready (holdDuration s) (totalSessions s) false.

(** A session forced to start with [t] seconds on the clock: the state is
    set as a test would and rendered, so both effects run. *)
Definition startClockAt (t : Z) : M unit :=
  dispatch (fun _ => setTimeLeft t ;; setIsActive true).

(** Milliseconds until the clock reaches zero, [r] of them until the next
    tick. *)
Definition msLeft (w : World) (r : Z) : Z := (timeLeft (st w) - 1) * 1000 + r.

(** The fields a running session leaves alone. *)
Definition sameSettings (w w' : World) : Prop :=
  holdDuration (st w') = holdDuration (st w) /\
  totalSessions (st w') = totalSessions (st w) /\
  showCelebration (st w') = showCelebration (st w) /\
  meditation_count w' = meditation_count w.

(** One millisecond of the sequencer. *)
Definition seqStep (w w' : World) (sv sv' : SeqView) : Prop :=
  match sv with
  | SeqOff => sv' = SeqOff /\ phase (st w') = phase (st w)
  | SeqOn j q _ =>
      if q =? 1
      then (exists j' f',
              sv' = SeqOn j' (phaseMs (holdDuration (st w))
                                (nextPhase (phase (st w)))) f')
           /\ phase (st w') = nextPhase (phase (st w))
      else (exists f', sv' = SeqOn j (q - 1) f')
           /\ phase (st w') = phase (st w)
  end.

(** [ms] milliseconds of the sequencer. *)
Definition seqAfter (w w' : World) (sv sv' : SeqView) (ms : Z) : Prop :=
  match sv with
  | SeqOff => sv' = SeqOff /\ phase (st w') = phase (st w)
  | SeqOn _ q _ =>
      exists j' q' f',
        sv' = SeqOn j' q' f' /\
        cyclePos (holdDuration (st w)) (phase (st w')) q' =
          (cyclePos (holdDuration (st w)) (phase (st w)) q + ms)
            mod cycleMs (holdDuration (st w))
  end.

(** The state after an activation: the sequencer starts from Ready only. *)
Definition activated (s : State) : State :=
  mkState (timeLeft s) true
    (if phase_eqb (phase s) Ready then Inhale else phase s)
    (holdDuration s) (totalSessions s) (showCelebration s).

Definition startedSeq (s : State) (sv : SeqView) : Prop :=
  if phase_eqb (phase s) Ready
  then exists j f, sv = SeqOn j (INHALE_TIME * 1000) f
  else sv = SeqOff.

(** An active session with a pending phase transition and no interval. *)
Definition SeqOnly (w : World) (j q : Z) : Prop :=
  isActive (st w) = true /\
  In (holdDuration (st w)) holdOptions /\
  1 <= q /\
  exists cb,
    seqCallback (phase (st w)) (holdDuration (st w)) = Some cb /\
    phaseTimeoutRef w = Some j /\
    0 < j < nextId w /\
    timers w = [mkTimer j (now w + q) Timeout cb].

(** What the first effect makes of a stored entry. *)
Definition storedCount (stored : option string) : JS.number :=
  if JS.truthy_string stored
  then match stored with
       | Some s => JS.parseInt s
       | None => JS.Num 0
       end
  else JS.Num 0.

(** The counter on screen is the one in the store. *)
Definition Synced (w : World) : Prop :=
  totalSessions (st w) = storedCount (meditation_count w).

(** What every step keeps: the invariant, the platform, and the agreement
    of the counter with the store. *)
Definition kept (w w' : World) : Prop :=
  Inv w' /\ platform w' = platform w /\ (Synced w -> Synced w').

(** The exception a tone would raise in this world, if any. *)
Definition audioThrows (w : World) : option Exn :=
  if (negb (audioContextRef w) && ctorThrows (platform w))%bool
  then Some TypeError
  else if nodesThrow (platform w) then Some AudioError
  else None.

(** The platform changes its behaviour (a device is lost, a policy set). *)
Definition withPlatform (p : Platform) (w : World) : World :=
  mkWorld (st w) (audioContextRef w) (timerIntervalRef w)
    (phaseTimeoutRef w) (timers w) (nextId w) (now w) (meditation_count w)
    p (tones w).

(** A platform on which every audio call succeeds. *)
Definition quiet : Platform := mkPlatform false false false.

(** A platform without [AudioContext]. *)
Definition noAudio : Platform := mkPlatform true false false.

(** The screen after mounting on a first visit. *)
Definition firstVisit : World :=
  mkWorld initialState false None None [] 1 0 None quiet [].

(** Half way through the first Inhale of a first session. *)
Definition midInhale : World :=
  final (run [ClickStartPause; Elapse 2500] firstVisit).

(** A platform whose oscillators cannot be created. *)
Definition brokenNodes : Platform := mkPlatform false true false.

(** One second before the end of a first session. *)
Definition lastSecond : World :=
  final (run [ClickStartPause; Elapse 299000] firstVisit).

(** Events the screen offers in every state. *)
Definition anytime (e : Event) : Prop :=
  match e with
  | ClickDone => False
  | ClickHold sec => In sec holdOptions
  | _ => True
  end.

(** A first session that ran to its end. *)
Definition finishedSession : World :=
  final (run [ClickStartPause; Elapse 300000] firstVisit).

(** ** The rendered texts *)

(** The filler of [padStart]: [n] characters going round [pad]; [cur] is
    what is left of the current round. *)
Fixpoint padding (n : nat) (pad cur : string) : string :=
  match n with
  | O => EmptyString
  | S n' =>
      match cur with
      | String c r => String c (padding n' pad r)
      | EmptyString =>
          match pad with
          | String c r => String c (padding n' pad r)
          | EmptyString => EmptyString
          end
      end
  end.

(** [s.padStart(targetLength, padString)] *)
Definition padStart (targetLength : nat) (padString s : string) : string :=
  if (targetLength <=? String.length s)%nat then s
  else (padding (targetLength - String.length s) padString padString ++ s)%string.

(** [formatTime(seconds)]: [Math.floor(seconds / 60)], the remainder
    [seconds % 60] (of the sign of [seconds]) and the template string. *)
Definition formatTime (seconds : Z) : string :=
  let mins := seconds / 60 in
  let secs := Z.rem seconds 60 in
  (JS.toString (JS.Num mins) ++ ":"
   ++ padStart 2 "0" (JS.toString (JS.Num secs)))%string.

(** The two decimal digits of a number below 100. *)
Definition twoDigits (k : Z) : string :=
  String (ascii_of_nat (48 + Z.to_nat (k / 10)))
    (String (ascii_of_nat (48 + Z.to_nat (k mod 10))) EmptyString).


(** ** More vocabulary *)

Definition inCycle (p : BreathPhase) : Prop :=
  p = Inhale \/ p = Hold \/ p = Exhale.

(** How the cells of a rendered state hang together. *)
Definition Tidy (s : State) : Prop :=
  (isActive s = true -> inCycle (phase s)) /\
  (phase s = Complete <-> timeLeft s = 0) /\
  (showCelebration s = true <-> phase s = Complete) /\
  (phase s = Ready -> timeLeft s = INITIAL_TIME).

Definition isInterval (t : Timer) : bool :=
  match kind t with
  | Interval _ => true
  | Timeout => false
  end.

Definition isTimeout (t : Timer) : bool := negb (isInterval t).

(** The values a pending callback captured are those of the state [s]. *)
Definition captures (s : State) (cb : Callback) : Prop :=
  match cb with
  | CbTick total => total = totalSessions s
  | CbAfterInhale a h | CbAfterHold a h | CbAfterExhale a h =>
      a = true /\ h = holdDuration s
  end.


(** The tone that announces a phase: the arguments of the [playBeep] call
    next to its [setPhase]. *)
Definition cue (p : BreathPhase) : option (Z * OscillatorType) :=
  match p with
  | Ready => None
  | Inhale => Some (300, sine)
  | Hold => Some (440, sine)
  | Exhale => Some (350, sine)
  | Complete => Some (600, triangle)
  end.

(** The oscillator started last. *)
Definition lastTone (w : World) : option (Z * OscillatorType) :=
  List.hd_error (List.rev (tones w)).

(** Outside Ready the audio context exists and the last tone is the cue of
    the phase on screen. *)
Definition Heard (w : World) : Prop :=
  phase (st w) <> Ready ->
  audioContextRef w = true /\ lastTone w = cue (phase (st w)).

(** ** The animated circle *)

(** A target of the circle animation: scale and opacity in tenths, and the
    [transition.duration] in seconds where the variant sets one. *)
Record Variant : Type := mkVariant {
  scale : Z;
  opacity : Z;
  duration : option Z
}.

(** [circleVariants[p]] as built by the render whose state has hold
    duration [hold]. *)
Definition circleVariants (hold : Z) (p : BreathPhase) : Variant :=
  match p with
  | Ready => mkVariant 10 8 None
  | Inhale => mkVariant 18 10 (Some INHALE_TIME)
  | Hold => mkVariant 18 9 (Some hold)
  | Exhale => mkVariant 10 8 (Some EXHALE_TIME)
  | Complete => mkVariant 10 0 None
  end.

(** The animation the circle is given by a render of [s]:
    [variants={circleVariants} animate={phase}]. *)
Definition circleTarget (s : State) : Variant :=
  circleVariants (holdDuration s) (phase s).



(** ** The hold selector *)

(** One button of the selector as a render draws it. *)
Record HoldButton : Type := mkHoldButton {
  holdSeconds : Z;
  highlighted : bool;       (* [holdDuration === sec] *)
  disabled : bool           (* [disabled={isActive}] *)
}.

(** [[1, 2, 4].map((sec) => <button ... />)] *)
Definition holdButtons (s : State) : list HoldButton :=
  map (fun sec => mkHoldButton sec (holdDuration s =? sec) (isActive s))
    holdOptions.

(** * Proofs *)

(** ** [parseInt] reads back what [toString] wrote *)

Lemma digits_string_of_uint u : JS.digits (NilEmpty.string_of_uint u) = u.
Proof. induction u; cbn; congruence. Qed.

Lemma parse_unsigned u :
  u <> Nil ->
  JS.parseInt (NilEmpty.string_of_uint u) = JS.Num (Z.of_uint u).
Proof.
  intros Hu.
  assert (E : JS.parseInt (NilEmpty.string_of_uint u) =
              match JS.digits (NilEmpty.string_of_uint u) with
              | Nil => JS.NaN
              | v => JS.Num (Z.of_uint v)
              end)
    by (destruct u; try congruence; reflexivity).
  rewrite E, digits_string_of_uint. destruct u; congruence.
Qed.

Lemma parse_nilzero u :
  JS.parseInt (NilZero.string_of_uint u) = JS.Num (Z.of_uint u).
Proof.
  destruct u; try (apply parse_unsigned; discriminate). reflexivity.
Qed.

Lemma digits_nilzero u :
  exists v, JS.digits (NilZero.string_of_uint u) = v /\ v <> Nil /\
            Z.of_uint v = Z.of_uint u.
Proof.
  destruct u;
    try (eexists; split; [apply digits_string_of_uint|]; split;
         [discriminate | reflexivity]).
  exists (D0 Nil). repeat split. discriminate.
Qed.

Lemma parseInt_toString n : JS.parseInt (JS.toString n) = n.
Proof.
  destruct n as [|z]; [reflexivity|].
  cbn [JS.toString].
  rewrite <- (DecimalZ.of_to z) at 2.
  destruct (Z.to_int z) as [u|u].
  - apply parse_nilzero.
  - cbn [NilZero.string_of_int Z.of_int].
    destruct (digits_nilzero u) as (v & E & Hv & Ev).
    assert (P : JS.parseInt (String "-" (NilZero.string_of_uint u)) =
                match JS.digits (NilZero.string_of_uint u) with
                | Nil => JS.NaN
                | w => JS.Num (- Z.of_uint w)
                end) by reflexivity.
    rewrite P, E, <- Ev. destruct v; congruence.
Qed.

Lemma toString_truthy n : JS.truthy_string (Some (JS.toString n)) = true.
Proof.
  destruct n as [|z]; [reflexivity|]. cbn [JS.toString].
  destruct (Z.to_int z) as [u|u]; [|reflexivity].
  destruct u; reflexivity.
Qed.

Lemma storedCount_toString n : storedCount (Some (JS.toString n)) = n.
Proof.
  unfold storedCount. rewrite toString_truthy. apply parseInt_toString.
Qed.

(** ** Symbolic execution of the model *)
(** The two audio entry points either return, having set the context, or
    throw, and then the platform is not reliable. *)
Lemma playBeep_spec freq type w :
  playBeep freq type w =
    Ret tt (upd_tones (fun l => l ++ [(freq, type)])
              (upd_audioContextRef true w))
  \/ (exists e w', playBeep freq type w = Throw e w')
     /\ ~ reliable (platform w).
Proof.
  unfold playBeep, bind, ensureAudioContext, newAudioContext, when_, resume,
    createNodes, startOscillator, modify, ret, reliable.
  destruct w as [s a ti tp ts n t mc [c nd su] tn]; cbn.
  destruct a, c, nd, su; cbn;
    try (left; reflexivity);
    right;
    (split; [eexists; eexists; reflexivity | intros [? ?]; discriminate]).
Qed.

Lemma ensure_spec w :
  ensureAudioContext w = Ret tt (upd_audioContextRef true w)
  \/ (exists e w', ensureAudioContext w = Throw e w')
     /\ ~ reliable (platform w).
Proof.
  unfold ensureAudioContext, newAudioContext, reliable.
  destruct w as [s a ti tp ts n t mc [c nd su] tn]; cbn.
  destruct a, c; cbn; try (left; reflexivity);
    right;
    (split; [eexists; eexists; reflexivity | intros [? ?]; discriminate]).
Qed.

(** Decide the integer tests of the goal from the hypotheses. *)
Ltac ztest :=
  repeat match goal with
  | |- context [Z.eqb ?a ?b] =>
      first [ rewrite (proj2 (Z.eqb_eq a b)) by lia
            | rewrite (proj2 (Z.eqb_neq a b)) by lia ]
  | |- context [Z.leb ?a ?b] =>
      first [ rewrite (proj2 (Z.leb_le a b)) by lia
            | rewrite (proj2 (Z.leb_gt a b)) by lia ]
  | |- context [Z.gtb ?a ?b] =>
      rewrite (Z.gtb_ltb a b)
  | |- context [Z.ltb ?a ?b] =>
      first [ rewrite (proj2 (Z.ltb_lt a b)) by lia
            | rewrite (proj2 (Z.ltb_ge a b)) by lia ]
  end.

Ltac zmax :=
  repeat match goal with
  | |- context [Z.max 0 ?a] => rewrite (Z.max_r 0 a) by lia
  end.

(** Unfold the model, leaving arithmetic and the audio calls alone. *)
Ltac wred :=
  cbv beta iota zeta delta
    [fire dispatch commit bind ret modify throw when_ final returns post
     setTimeLeft setIsActive setPhase setHoldDuration setTotalSessions
     setShowCelebration
     setTimer setTimeout setInterval clearTimer clearHandle
     clearPhaseTimeout clearTimerInterval
     resetSession handleStartPause handleReset handleComplete
     handleHoldClick
     startBreathingCycle tickUpdater runCallback
     initEffect timerEffect timerCleanup phaseEffect
     timerDepsChanged phaseDepsChanged
     reschedule fireAll dueIds ms_step step startClockAt
     mount initialWorld initialState
     upd_st upd_audioContextRef upd_timerIntervalRef upd_phaseTimeoutRef
     upd_timers upd_nextId upd_now upd_meditation_count upd_tones
     st audioContextRef timerIntervalRef phaseTimeoutRef timers nextId now
     meditation_count platform tones
     timeLeft isActive phase holdDuration totalSessions showCelebration
     tid due kind callback tickTimer completedState resetState
     JS.truthy_handle JS.truthy_string phase_eqb
     List.find List.filter List.map List.app negb andb orb Bool.eqb
     INITIAL_TIME INHALE_TIME EXHALE_TIME].

Ltac wred_in H :=
  cbv beta iota zeta delta
    [upd_st upd_audioContextRef upd_timerIntervalRef upd_phaseTimeoutRef
     upd_timers upd_nextId upd_now upd_meditation_count upd_tones
     st audioContextRef timerIntervalRef phaseTimeoutRef timers nextId now
     meditation_count platform tones]
    in H.

(** Split on the outcome of the next audio call; a throw closes the goal
    when it is a [post]. *)
Ltac beep :=
  match goal with
  | |- context [playBeep ?f ?t ?W] =>
      let E := fresh "E" in
      let NR := fresh "NR" in
      destruct (playBeep_spec f t W) as [E | [(? & ? & E) NR]];
      rewrite E; clear E;
      [ | wred; wred_in NR; exact NR ]
  | |- context [ensureAudioContext ?W] =>
      let E := fresh "E" in
      let NR := fresh "NR" in
      destruct (ensure_spec W) as [E | [(? & ? & E) NR]];
      rewrite E; clear E;
      [ | wred; wred_in NR; exact NR ]
  end.

(** Run the model symbolically as far as it goes. *)
Ltac wgo := repeat (wred; ztest; zmax; try beep).

(** Name the components of a world. *)
Ltac destruct_world w :=
  destruct w as [[tl act ph h tot sc] a ti tp ts n t mc p tn].

(** Spell out what [Run], [Inv] and the like say of a destructured world. *)
Ltac shape_in H :=
  cbv beta iota zeta delta
    [Inv Idle Run Pend seqBounds msLeft SeqOnly
     st timeLeft isActive phase holdDuration totalSessions showCelebration
     timerIntervalRef phaseTimeoutRef timers nextId now INITIAL_TIME] in H.

Lemma hold_range h : In h holdOptions -> 1 <= h <= 4.
Proof. cbv [holdOptions In]. lia. Qed.


Ltac timers_eq :=
  repeat match goal with
         | |- @eq (list Timer) _ _ => f_equal
         | |- @eq Timer _ _ => f_equal
         | |- @eq Z _ _ => lia
         end.

Ltac solve_shape :=
  cbv [Run Pend Idle seqBounds holdOptions In phaseMs nextPhase seqCallback
       sameSettings seqStep msLeft];
  wred; ztest;
  repeat match goal with
         | |- _ /\ _ => split
         | |- exists _, _ => eexists
         end;
  try reflexivity; try lia; try tauto; try timers_eq.

Ltac open_seq Hs Hcb :=
  let cb := fresh "cb" in
  destruct Hs as (cb & Hcb & -> & ? & ? & ->);
  match type of Hcb with
  | seqCallback ?ph _ = _ => destruct ph; try discriminate Hcb
  end;
  cbv [seqCallback] in Hcb; injection Hcb as <-.


Ltac pick_seq f :=
  eexists; eexists; split;
  [ cbv [seqStep]; wred; ztest;
    split; [ first [ reflexivity
                   | exists f; reflexivity
                   | eexists; exists f; reflexivity ]
           | reflexivity ]
  | solve_shape ].

Lemma ms_step_run w i r sv :
  Run w i r sv -> 2 <= msLeft w r ->
  post (ms_step w) w (fun w' =>
    now w' = now w + 1 /\ platform w' = platform w /\ sameSettings w w' /\
    exists i' sv',
      seqStep w w' sv sv' /\
      Run w' i' (if r =? 1 then 1000 else r - 1) sv' /\
      timeLeft (st w') =
        (if r =? 1 then timeLeft (st w) - 1 else timeLeft (st w))).
Proof.
  intros H HL.
  destruct_world w. shape_in H. shape_in HL.
  destruct H as ((-> & Htl & Hh & -> & Hi & Hs) & Hr & Hq).
  pose proof (hold_range _ Hh) as Hh'.
  destruct sv as [|j q first].
  - subst ts. destruct (Z.eq_dec r 1) as [Hr1|Hr1]; wgo.
    all: repeat match goal with |- _ /\ _ => split end; try reflexivity.
    all: try solve [cbv [sameSettings]; wred; auto].
    all: pick_seq true.
  - open_seq Hs Hcb.
    all: cbv [phaseMs INHALE_TIME EXHALE_TIME] in Hq.
    all: destruct first;
      (destruct (Z.eq_dec r 1) as [Hr1|Hr1]);
      (destruct (Z.eq_dec q 1) as [Hq1|Hq1]); wgo.
    all: repeat match goal with |- _ /\ _ => split end; try reflexivity.
    all: try solve [cbv [sameSettings]; wred; auto].
    all: first [ solve [pick_seq true] | solve [pick_seq false] ].
Qed.

Lemma ms_step_complete w i r sv :
  Run w i r sv -> msLeft w r = 1 ->
  post (ms_step w) w (fun w' =>
    now w' = now w + 1 /\ platform w' = platform w /\
    nextId w <= nextId w' /\
    Idle w' /\ st w' = completedState (st w) /\
    meditation_count w' =
      Some (JS.toString (JS.succ (totalSessions (st w))))).
Proof.
  intros H HL.
  destruct_world w. shape_in H. shape_in HL.
  destruct H as ((-> & Htl & Hh & -> & Hi & Hs) & Hr & Hq).
  pose proof (hold_range _ Hh) as Hh'.
  assert (Hr1 : r = 1) by lia. assert (Htl1 : tl = 1) by lia.
  destruct sv as [|j q first].
  - subst ts.
    destruct tp as [jp|]; [destruct (Z.eq_dec jp 0), (Z.eq_dec jp i)|]; wgo;
      solve_shape.
  - open_seq Hs Hcb.
    all: cbv [phaseMs INHALE_TIME EXHALE_TIME] in Hq.
    all: destruct first; (destruct (Z.eq_dec q 1) as [Hq1|Hq1]); wgo.
    all: solve_shape.
Qed.

Lemma ms_step_idle w :
  timers w = [] -> ms_step w = Ret tt (upd_now (now w + 1) w).
Proof.
  destruct w as [s a ti tp ts n t mc p tn]; cbn; intros ->. reflexivity.
Qed.

Lemma elapse_succ ms w :
  elapse (N.succ ms) w = (ms_step ;; elapse ms) w.
Proof. unfold elapse. rewrite N.iter_succ. reflexivity. Qed.

Lemma elapse_0 w : elapse 0 w = Ret tt w.
Proof. reflexivity. Qed.

Lemma elapse_idle ms : forall w,
  timers w = [] ->
  elapse ms w = Ret tt (upd_now (now w + Z.of_N ms) w).
Proof.
  induction ms as [|ms IH] using N.peano_ind; intros w Hw.
  - rewrite elapse_0. destruct w; cbn. rewrite Z.add_0_r. reflexivity.
  - rewrite elapse_succ. unfold bind. rewrite ms_step_idle by exact Hw.
    rewrite IH by (destruct w; exact Hw).
    destruct w as [s a ti tp ts n t mc p tn]; wred.
    rewrite N2Z.inj_succ. do 2 f_equal. lia.
Qed.

Lemma elapse_add a : forall b w,
  elapse (a + b) w = (elapse a ;; elapse b) w.
Proof.
  induction a as [|a IH] using N.peano_ind; intros b w.
  - reflexivity.
  - rewrite N.add_succ_l. unfold bind. rewrite !elapse_succ. unfold bind.
    destruct (ms_step w) as [[] w1|e w1]; [|reflexivity].
    rewrite IH. reflexivity.
Qed.

(** *** Clicks *)

Ltac open_world w :=
  destruct_world w;
  cbv beta iota zeta delta
    [Inv Idle Run Pend seqBounds msLeft
     st timeLeft isActive phase holdDuration totalSessions showCelebration
     timerIntervalRef phaseTimeoutRef timers nextId now INITIAL_TIME] in *.

Ltac case_handle x :=
  let id := fresh "id" in
  destruct x as [id|]; [destruct (Z.eq_dec id 0)|].

Lemma click_reset_total w :
  Inv w ->
  exists w',
    step ClickReset w = Ret tt w' /\
    Idle w' /\ st w' = resetState (st w) /\
    now w' = now w /\ platform w' = platform w /\
    meditation_count w' = meditation_count w /\ nextId w' = nextId w.
Proof.
  intros H. open_world w.
  destruct H as (Htl & Hh & Hn & [[-> ->] | (i & r & sv & HP & Hr & Hq)]);
    [|destruct HP as (-> & Htl' & _ & -> & Hi & Hs)].
  - case_handle tp; case_handle ti; destruct (Z.eq_dec tl 300); wgo;
      eexists; (split; [reflexivity|]); solve_shape.
  - destruct sv as [|j q first].
    + subst ts.
      destruct tp as [jp|]; [destruct (Z.eq_dec jp 0), (Z.eq_dec jp i)|]; wgo;
        eexists; (split; [reflexivity|]); solve_shape.
    + open_seq Hs Hcb; destruct first; wgo;
        eexists; (split; [reflexivity|]); solve_shape.
Qed.

Lemma click_reset_again w :
  timers w = [] -> st w = resetState (st w) ->
  step ClickReset w = Ret tt w.
Proof.
  destruct_world w.
  cbv [resetState timers st holdDuration totalSessions INITIAL_TIME].
  intros -> [= -> -> -> ->].
  case_handle tp; case_handle ti; wgo; reflexivity.
Qed.

Lemma click_done_total w :
  Inv w ->
  exists w',
    step ClickDone w = Ret tt w' /\
    Idle w' /\ st w' = resetState (st w) /\
    now w' = now w /\ platform w' = platform w /\
    meditation_count w' = meditation_count w /\ nextId w' = nextId w.
Proof.
  intros H. open_world w.
  destruct H as (Htl & Hh & Hn & [[-> ->] | (i & r & sv & HP & Hr & Hq)]);
    [|destruct HP as (-> & Htl' & _ & -> & Hi & Hs)].
  - case_handle tp; case_handle ti; destruct (Z.eq_dec tl 300); wgo;
      eexists; (split; [reflexivity|]); solve_shape.
  - destruct sv as [|j q first].
    + subst ts.
      destruct tp as [jp|]; [destruct (Z.eq_dec jp 0), (Z.eq_dec jp i)|]; wgo;
        eexists; (split; [reflexivity|]); solve_shape.
    + open_seq Hs Hcb; destruct first; wgo;
        eexists; (split; [reflexivity|]); solve_shape.
Qed.

(** Pausing a running session. *)
Lemma click_pause w i r sv :
  Run w i r sv ->
  post (step ClickStartPause w) w (fun w' =>
    Idle w' /\
    st w' = mkState (timeLeft (st w)) false (phase (st w))
              (holdDuration (st w)) (totalSessions (st w))
              (showCelebration (st w)) /\
    now w' = now w /\ platform w' = platform w /\
    meditation_count w' = meditation_count w /\ nextId w' = nextId w).
Proof.
  intros H. open_world w.
  destruct H as ((-> & Htl' & _ & -> & Hi & Hs) & Hr & Hq).
  destruct sv as [|j q first].
  - subst ts.
    destruct tp as [jp|]; [destruct (Z.eq_dec jp 0), (Z.eq_dec jp i)|]; wgo;
      solve_shape.
  - open_seq Hs Hcb; destruct first; wgo; solve_shape.
Qed.

Lemma click_start_idle w :
  Inv w -> Idle w -> timeLeft (st w) <> 0 ->
  post (step ClickStartPause w) w (fun w' =>
    now w' = now w /\ platform w' = platform w /\
    meditation_count w' = meditation_count w /\
    st w' = activated (st w) /\
    exists i sv, Run w' i 1000 sv /\ startedSeq (st w) sv).
Proof.
  intros H HI Hne. open_world w.
  destruct HI as [-> ->].
  destruct H as (Htl & Hh & Hn & _).
  pose proof (hold_range _ Hh) as Hh'.
  destruct ph; case_handle tp; case_handle ti; wgo.
  all: cbv [activated startedSeq]; wred.
  all: repeat match goal with |- _ /\ _ => split end; try reflexivity.
  all: first [ solve [eexists; exists SeqOff; solve_shape]
             | solve [eexists; eexists (SeqOn _ (4 * 1000) false);
                      solve_shape] ].
Qed.

Lemma click_start_finished w :
  Inv w -> Idle w -> timeLeft (st w) = 0 ->
  post (step ClickStartPause w) w (fun w' =>
    Idle w' /\ st w' = resetState (st w) /\
    now w' = now w /\ platform w' = platform w /\
    meditation_count w' = meditation_count w /\ nextId w' = nextId w).
Proof.
  intros H HI Hne. open_world w.
  destruct HI as [-> ->]. subst tl.
  case_handle tp; case_handle ti; wgo; solve_shape.
Qed.

Lemma startClockAt_idle t0 w :
  Inv w -> Idle w -> 1 <= t0 <= INITIAL_TIME ->
  post (startClockAt t0 w) w (fun w' =>
    now w' = now w /\ platform w' = platform w /\
    meditation_count w' = meditation_count w /\
    st w' = activated (mkState t0 false (phase (st w)) (holdDuration (st w))
                        (totalSessions (st w)) (showCelebration (st w))) /\
    exists i sv, Run w' i 1000 sv /\ startedSeq (st w) sv).
Proof.
  intros H HI Ht. open_world w.
  destruct HI as [-> ->].
  destruct H as (Htl & Hh & Hn & _).
  pose proof (hold_range _ Hh) as Hh'.
  destruct ph; case_handle tp; case_handle ti; destruct (Z.eq_dec tl t0); wgo.
  all: cbv [activated startedSeq]; wred.
  all: repeat match goal with |- _ /\ _ => split end; try reflexivity.
  all: first [ solve [eexists; exists SeqOff; solve_shape]
             | solve [eexists; eexists (SeqOn _ (4 * 1000) false);
                      solve_shape] ].
Qed.

Lemma click_hold_idle sec w :
  isActive (st w) = false ->
  step (ClickHold sec) w =
    Ret tt (upd_st (fun s => mkState (timeLeft s) (isActive s) (phase s) sec
                               (totalSessions s) (showCelebration s)) w).
Proof.
  destruct_world w.
  cbv [st isActive]. intros ->. wgo. reflexivity.
Qed.

Lemma click_hold_active sec w :
  isActive (st w) = true -> step (ClickHold sec) w = Ret tt w.
Proof.
  destruct_world w.
  cbv [st isActive]. intros ->. wgo. reflexivity.
Qed.

(** *** Outcomes *)

Lemma post_imp o w (P Q : World -> Prop) :
  post o w P -> (forall w', P w' -> Q w') -> post o w Q.
Proof. destruct o; cbn; auto. Qed.

Lemma post_reliable o w P :
  post o w P -> reliable (platform w) -> exists w', o = Ret tt w' /\ P w'.
Proof.
  destruct o as [[] w'|e w']; cbn; intros H R.
  - eauto.
  - contradiction.
Qed.

Lemma post_bind (m k : M unit) w (P Q : World -> Prop) :
  post (m w) w P ->
  (forall w', P w' -> platform w' = platform w /\ post (k w') w' Q) ->
  post ((m ;; k) w) w Q.
Proof.
  unfold bind. destruct (m w) as [[] w1|e w1]; cbn; intros H K; [|exact H].
  destruct (K _ H) as [E HK].
  destruct (k w1); cbn in *; [exact HK | rewrite <- E; exact HK].
Qed.

(** *** The invariant along every run *)

Lemma Run_Inv w i r sv : Run w i r sv -> Inv w.
Proof.
  intros H. pose proof H as ((Ha & Ht & Hh & _ & Hi & _) & _).
  repeat split; try lia; auto.
  right. eauto.
Qed.

Lemma mount_total stored p :
  exists w,
    mount (initialWorld stored p) = Ret tt w /\
    Inv w /\ Idle w /\ platform w = p /\ meditation_count w = stored /\
    now w = 0 /\
    st w = mkState INITIAL_TIME false Ready 1
             (if JS.truthy_string stored
              then match stored with
                   | Some s => JS.parseInt s
                   | None => JS.Num 0
                   end
              else JS.Num 0) false.
Proof.
  destruct stored as [[|c s]|]; eexists; (split; [reflexivity|]);
    cbv [Inv Idle holdOptions In]; wred; repeat split; try lia; auto.
Qed.

Lemma Inv_cases w :
  Inv w -> (Idle w /\ isActive (st w) = false)
           \/ (exists i r sv, Run w i r sv /\ isActive (st w) = true).
Proof.
  intros (_ & _ & _ & [HI | (i & r & sv & HR)]).
  - left. split; [exact HI | apply HI].
  - right. exists i, r, sv. split; [exact HR | apply HR].
Qed.

Lemma Synced_same w w' :
  totalSessions (st w') = totalSessions (st w) ->
  meditation_count w' = meditation_count w ->
  Synced w -> Synced w'.
Proof. unfold Synced. intros -> ->. auto. Qed.

Lemma kept_trans w w1 w2 : kept w w1 -> kept w1 w2 -> kept w w2.
Proof.
  intros (_ & E1 & S1) (I2 & E2 & S2).
  split; [exact I2 | split; [congruence | auto]].
Qed.

Lemma ms_step_inv w :
  Inv w ->
  post (ms_step w) w (fun w' =>
    kept w w' /\ holdDuration (st w') = holdDuration (st w)).
Proof.
  intros H. pose proof H as (Ht & Hh & Hn & [HI | (i & r & sv & HR)]).
  - rewrite ms_step_idle by apply HI. cbn.
    destruct_world w.
    cbv [kept Synced Inv Idle] in *; wred. cbn in *. tauto.
  - destruct (Z.eq_dec (msLeft w r) 1) as [E|E].
    + eapply post_imp; [eapply ms_step_complete; eauto|].
      cbv beta. intros w' (_ & Hp & Hnx & HI & Hs & Hmc).
      split; [split; [|split; [exact Hp|]]|].
      * cbv [Inv]. rewrite Hs. cbv [completedState INITIAL_TIME] in *.
        cbn [timeLeft holdDuration].
        repeat split; try lia; auto.
      * intros _. unfold Synced. rewrite Hs, Hmc.
        cbn [completedState totalSessions].
        symmetry. apply storedCount_toString.
      * rewrite Hs. reflexivity.
    + assert (2 <= msLeft w r).
      { destruct HR as ((_ & Htl & _) & Hr & _). cbv [msLeft] in *. lia. }
      eapply post_imp; [eapply ms_step_run; eauto|].
      cbv beta.
      intros w' (_ & Hp & (Hh' & Htot & _ & Hmc) & i' & sv' & _ & HR' & _).
      split; [split; [|split; [exact Hp|]]|].
      * eapply Run_Inv; eauto.
      * apply Synced_same; auto.
      * exact Hh'.
Qed.

Lemma elapse_inv ms : forall w,
  Inv w ->
  post (elapse ms w) w (fun w' =>
    kept w w' /\ holdDuration (st w') = holdDuration (st w)).
Proof.
  induction ms as [|ms IH] using N.peano_ind; intros w H.
  - cbn. cbv [kept]. auto.
  - rewrite elapse_succ.
    eapply post_bind; [apply ms_step_inv; exact H|].
    cbv beta. intros w1 [K1 E1]. split; [apply K1|].
    eapply post_imp; [apply IH; apply K1|].
    cbv beta. intros w' [K' E']. split; [eapply kept_trans; eauto | congruence].
Qed.

Lemma kept_of_state w w' :
  Inv w ->
  0 <= timeLeft (st w') <= INITIAL_TIME ->
  holdDuration (st w') = holdDuration (st w) ->
  totalSessions (st w') = totalSessions (st w) ->
  meditation_count w' = meditation_count w ->
  platform w' = platform w ->
  nextId w' = nextId w ->
  Idle w' ->
  kept w w'.
Proof.
  intros (_ & Hh & Hn & _) Ht Eh Et Em Ep En HI.
  split; [|split; [exact Ep | apply Synced_same; auto]].
  cbv [Inv]. rewrite Eh, En. auto.
Qed.

(** Every event keeps the invariant; only a hold button changes the hold
    duration. *)
Lemma step_inv e w :
  Inv w -> offered e w ->
  post (step e w) w (fun w' =>
    kept w w' /\
    ((forall sec, e <> ClickHold sec) ->
     holdDuration (st w') = holdDuration (st w))).
Proof.
  intros H Ho. destruct e as [| | |sec|ms].
  - destruct (Inv_cases _ H) as [[HI Ha] | (i & r & sv & HR & Ha)].
    + destruct (Z.eq_dec (timeLeft (st w)) 0) as [E|E].
      * eapply post_imp; [apply click_start_finished; auto|].
        cbv beta. intros w' (HI' & Hs & _ & Hp & Hm & Hn).
        split; [|intros _; rewrite Hs; reflexivity].
        apply kept_of_state; auto; rewrite Hs; cbn; try reflexivity.
        cbv [INITIAL_TIME]. lia.
      * eapply post_imp; [apply click_start_idle; auto|].
        cbv beta. intros w' (_ & Hp & Hm & Hs & i & sv & HR & _).
        split; [|intros _; rewrite Hs; reflexivity].
        split; [eapply Run_Inv; eauto|]. split; [exact Hp|].
        apply Synced_same; auto. rewrite Hs. reflexivity.
    + eapply post_imp; [eapply click_pause; eauto|].
      cbv beta. intros w' (HI' & Hs & _ & Hp & Hm & Hn).
      split; [|intros _; rewrite Hs; reflexivity].
      apply kept_of_state; auto; rewrite Hs; cbn; try reflexivity.
      apply H.
  - destruct (click_reset_total _ H) as (w' & -> & HI' & Hs & _ & Hp & Hm & Hn).
    cbn. split; [|intros _; rewrite Hs; reflexivity].
    apply kept_of_state; auto; rewrite Hs; cbn; try reflexivity.
    cbv [INITIAL_TIME]. lia.
  - destruct (click_done_total _ H) as (w' & -> & HI' & Hs & _ & Hp & Hm & Hn).
    cbn. split; [|intros _; rewrite Hs; reflexivity].
    apply kept_of_state; auto; rewrite Hs; cbn; try reflexivity.
    cbv [INITIAL_TIME]. lia.
  - destruct (Inv_cases _ H) as [[HI Ha] | (i & r & sv & HR & Ha)].
    + rewrite click_hold_idle by exact Ha. cbn in Ho.
      cbv beta iota delta [post].
      split; [|intros Hne; exfalso; eapply Hne; reflexivity].
      destruct_world w.
      cbv [kept Synced Inv Idle] in *; wred. cbn in *.
      repeat split; try tauto; try lia.
    + rewrite click_hold_active by exact Ha.
      cbv beta iota delta [post kept]. auto.
  - eapply post_imp; [apply elapse_inv; exact H|].
    cbv beta. intros w' [K E]. auto.
Qed.

Lemma reachable_kept w : reachable w -> Inv w /\ Synced w.
Proof.
  induction 1 as [stored p w Hm | w e w' Hr [IH IS] Ho Hs].
  - destruct (mount_total stored p) as (w1 & E & HI & _ & _ & Hmc & _ & Hst).
    rewrite E in Hm. injection Hm as <-. split; [exact HI|].
    unfold Synced. rewrite Hst, Hmc. reflexivity.
  - pose proof (step_inv e w IH Ho) as HP. rewrite Hs in HP.
    destruct HP as [(I' & _ & S') _]. auto.
Qed.

Lemma reachable_Inv w : reachable w -> Inv w.
Proof. intros H. apply reachable_kept. exact H. Qed.

Lemma reachable_idle w :
  reachable w -> isActive (st w) = false -> Idle w.
Proof.
  intros H Ha.
  destruct (Inv_cases _ (reachable_Inv _ H))
    as [[HI _]|(i & r & sv & _ & E)].
  - exact HI.
  - congruence.
Qed.

Lemma reachable_run w :
  reachable w -> isActive (st w) = true -> exists i r sv, Run w i r sv.
Proof.
  intros H Ha.
  destruct (Inv_cases _ (reachable_Inv _ H))
    as [[_ E]|(i & r & sv & HR & _)].
  - congruence.
  - eauto.
Qed.

Lemma Run_seq_facts w i r j q f :
  Run w i r (SeqOn j q f) ->
  (phase (st w) = Inhale \/ phase (st w) = Hold \/ phase (st w) = Exhale) /\
  1 <= q <= phaseMs (holdDuration (st w)) (phase (st w)) /\
  1 <= holdDuration (st w) <= 4.
Proof.
  intros ((_ & _ & Hh & _ & _ & (cb & Hcb & _)) & _ & Hq).
  split; [|split; [exact Hq | apply hold_range; exact Hh]].
  destruct (phase (st w)); cbn in Hcb; try discriminate; auto.
Qed.

Lemma cyclePos_range w i r j q f :
  Run w i r (SeqOn j q f) ->
  0 <= cyclePos (holdDuration (st w)) (phase (st w)) q
    < cycleMs (holdDuration (st w)).
Proof.
  intros H. destruct (Run_seq_facts _ _ _ _ _ _ H) as (Hp & Hq & Hh).
  cbv [cyclePos cycleMs phaseMs INHALE_TIME EXHALE_TIME] in *.
  destruct Hp as [E | [E | E]]; rewrite E in *; lia.
Qed.


Lemma seqStep_after w w' i r sv sv' :
  Run w i r sv -> seqStep w w' sv sv' -> seqAfter w w' sv sv' 1.
Proof.
  intros H HS. destruct sv as [|j q f]; [exact HS|].
  destruct (Run_seq_facts _ _ _ _ _ _ H) as (Hp & Hq & Hh).
  cbv [seqStep seqAfter] in *.
  destruct (Z.eqb_spec q 1) as [->|Hq1].
  - destruct HS as [(j' & f' & ->) Hph]. eexists _, _, _. split; [reflexivity|].
    rewrite Hph.
    cbv [cyclePos cycleMs phaseMs nextPhase INHALE_TIME EXHALE_TIME] in *.
    destruct Hp as [E | [E | E]]; rewrite E in *.
    + rewrite Z.mod_small; lia.
    + rewrite Z.mod_small; lia.
    + replace (4 * 1000 + holdDuration (st w) * 1000 + 4 * 1000 - 1 + 1)
        with (1 * (4 * 1000 + holdDuration (st w) * 1000 + 4 * 1000)) by lia.
      rewrite Z.mod_mul by lia. lia.
  - destruct HS as [(f' & ->) Hph]. eexists _, _, _. split; [reflexivity|].
    rewrite Hph.
    cbv [cyclePos cycleMs phaseMs nextPhase INHALE_TIME EXHALE_TIME] in *.
    destruct Hp as [E | [E | E]]; rewrite E in *; rewrite Z.mod_small; lia.
Qed.

Lemma seqAfter_trans w w1 w' sv sv1 sv' a b :
  holdDuration (st w1) = holdDuration (st w) ->
  seqAfter w w1 sv sv1 a -> seqAfter w1 w' sv1 sv' b ->
  seqAfter w w' sv sv' (a + b).
Proof.
  intros Hh H1 H2. destruct sv as [|j q f]; cbv [seqAfter] in *.
  - destruct H1 as [-> E1]. destruct H2 as [-> E2]. split; congruence.
  - destruct H1 as (j1 & q1 & f1 & -> & E1).
    destruct H2 as (j2 & q2 & f2 & -> & E2).
    eexists _, _, _. split; [reflexivity|].
    rewrite Hh in E2. rewrite E2, E1.
    rewrite Zplus_mod_idemp_l. f_equal. lia.
Qed.

Lemma seqAfter_0 w i r sv : Run w i r sv -> seqAfter w w sv sv 0.
Proof.
  intros H. destruct sv as [|j q f]; cbv [seqAfter]; [auto|].
  eexists _, _, _. split; [reflexivity|].
  rewrite Z.add_0_r, Z.mod_small; [reflexivity|].
  eapply cyclePos_range; eauto.
Qed.

Lemma elapse_run ms : forall w i r sv,
  Run w i r sv -> Z.of_N ms < msLeft w r ->
  post (elapse ms w) w (fun w' =>
    now w' = now w + Z.of_N ms /\ platform w' = platform w /\
    sameSettings w w' /\
    exists i' r' sv',
      Run w' i' r' sv' /\
      msLeft w' r' = msLeft w r - Z.of_N ms /\
      seqAfter w w' sv sv' (Z.of_N ms)).
Proof.
  induction ms as [|ms IH] using N.peano_ind; intros w i r sv H HL.
  - cbn. repeat split; try lia.
    exists i, r, sv. repeat split; try apply H; try lia.
    eapply seqAfter_0; eauto.
  - rewrite elapse_succ. rewrite N2Z.inj_succ in *.
    eapply post_bind; [eapply ms_step_run; eauto; lia|].
    cbv beta.
    intros w1 (Hn1 & Hp1 & Hs1 & i1 & sv1 & HS1 & HR1 & Ht1).
    split; [exact Hp1|].
    assert (HL1 : msLeft w1 (if r =? 1 then 1000 else r - 1) = msLeft w r - 1).
    { cbv [msLeft]. rewrite Ht1. destruct (Z.eqb_spec r 1); lia. }
    eapply post_imp; [eapply IH; [exact HR1 | lia]|].
    cbv beta.
    intros w' (Hn' & Hp' & Hs' & i' & r' & sv' & HR' & HL' & HS').
    destruct Hs1 as (Hh1 & Htot1 & Hsc1 & Hmc1).
    destruct Hs' as (Hh' & Htot' & Hsc' & Hmc').
    split; [lia|]. split; [congruence|].
    split; [cbv [sameSettings]; repeat split; congruence|].
    exists i', r', sv'. split; [exact HR'|]. split; [lia|].
    replace (Z.succ (Z.of_N ms)) with (1 + Z.of_N ms) by lia.
    eapply seqAfter_trans; [exact Hh1 | | exact HS'].
    eapply seqStep_after; eauto.
Qed.

(** *** The sequencer without a clock *)

Lemma ms_step_seqonly w j q :
  SeqOnly w j q ->
  post (ms_step w) w (fun w' =>
    platform w' = platform w /\
    timeLeft (st w') = timeLeft (st w) /\
    totalSessions (st w') = totalSessions (st w) /\
    showCelebration (st w') = showCelebration (st w) /\
    meditation_count w' = meditation_count w /\
    exists j' q', SeqOnly w' j' q').
Proof.
  intros H.
  destruct_world w. shape_in H.
  destruct H as (-> & Hh & Hq & cb & Hcb & -> & Hj & ->).
  pose proof (hold_range _ Hh) as Hh'.
  destruct ph; try discriminate Hcb;
    cbv [seqCallback] in Hcb; injection Hcb as <-;
    (destruct (Z.eq_dec q 1) as [Hq1|Hq1]); wgo.
  all: repeat match goal with |- _ /\ _ => split end; try reflexivity.
  all: first [ solve [exists j, (q - 1); cbv [SeqOnly]; solve_shape]
             | solve [exists n, (4 * 1000); cbv [SeqOnly]; solve_shape]
             | solve [exists n, (h * 1000); cbv [SeqOnly]; solve_shape] ].
Qed.

Lemma elapse_seqonly ms : forall w j q,
  SeqOnly w j q ->
  post (elapse ms w) w (fun w' =>
    platform w' = platform w /\
    timeLeft (st w') = timeLeft (st w) /\
    totalSessions (st w') = totalSessions (st w) /\
    showCelebration (st w') = showCelebration (st w) /\
    meditation_count w' = meditation_count w /\
    exists j' q', SeqOnly w' j' q').
Proof.
  induction ms as [|ms IH] using N.peano_ind; intros w j q H.
  - cbn. repeat split; eauto.
  - rewrite elapse_succ.
    eapply post_bind; [eapply ms_step_seqonly; eauto|].
    cbv beta. intros w1 (Hp & Ht & Htot & Hsc & Hmc & j1 & q1 & H1).
    split; [exact Hp|].
    eapply post_imp; [eapply IH; eauto|].
    cbv beta. intros w' (Hp' & Ht' & Htot' & Hsc' & Hmc' & HS).
    repeat split; try congruence; exact HS.
Qed.

Lemma SeqOnly_phase w j q : SeqOnly w j q -> phase (st w) <> Complete.
Proof.
  intros (_ & _ & _ & cb & Hcb & _) E. rewrite E in Hcb. discriminate.
Qed.

(** *** Reaching zero *)

Lemma elapse_past_completion ms w i r sv :
  Run w i r sv -> msLeft w r <= Z.of_N ms ->
  post (elapse ms w) w (fun w' =>
    platform w' = platform w /\ timers w' = [] /\
    st w' = completedState (st w) /\
    meditation_count w' =
      Some (JS.toString (JS.succ (totalSessions (st w))))).
Proof.
  intros HR HL.
  assert (H1 : 1 <= msLeft w r).
  { destruct HR as ((_ & Ht & _) & Hr & _). cbv [msLeft]. lia. }
  replace ms with (Z.to_N (msLeft w r - 1)
                   + N.succ (ms - Z.to_N (msLeft w r)))%N by lia.
  rewrite elapse_add.
  eapply post_bind; [eapply elapse_run; [exact HR | lia]|].
  cbv beta.
  intros w1 (_ & Hp1 & (Hh1 & Htot1 & Hsc1 & Hmc1) & Hex).
  destruct Hex as (i1 & r1 & sv1 & HR1 & HL1 & _).
  split; [exact Hp1|].
  rewrite elapse_succ.
  eapply post_bind; [eapply ms_step_complete; [exact HR1 | lia]|].
  cbv beta. intros w2 (_ & Hp2 & _ & [_ HI2] & Hs2 & Hmc2).
  split; [exact Hp2|].
  rewrite elapse_idle by exact HI2. cbv beta iota delta [post].
  destruct w2 as [s2 a2 ti2 tp2 ts2 n2 t2 mc2 p2 tn2].
  cbn in *. subst.
  repeat split; try congruence.
  cbv [completedState]. rewrite Hh1, Htot1. reflexivity.
Qed.

Lemma Run_timeLeft w i r sv L :
  Run w i r sv -> msLeft w r = L -> timeLeft (st w) = (L - 1) / 1000 + 1.
Proof.
  intros (_ & Hr & _) <-. cbv [msLeft].
  symmetry. apply Z.add_cancel_r with (p := -1).
  replace ((timeLeft (st w) - 1) * 1000 + r - 1)
    with ((r - 1) + (timeLeft (st w) - 1) * 1000) by lia.
  rewrite Z.div_add by lia. rewrite Z.div_small by lia. lia.
Qed.

(** *** Audio failures *)

Lemma playBeep_throws freq type w :
  match audioThrows w with
  | None =>
      playBeep freq type w =
        Ret tt (upd_tones (fun l => l ++ [(freq, type)])
                  (upd_audioContextRef true w))
  | Some e => exists w', playBeep freq type w = Throw e w' /\ st w' = st w
              /\ meditation_count w' = meditation_count w
  end.
Proof.
  destruct w as [s a ti tp ts n t mc [c nd su] tn].
  destruct a, c, nd, su; cbv; eauto.
Qed.

Lemma handleComplete_spec total w :
  match audioThrows w with
  | None =>
      exists w',
        handleComplete total w = Ret tt w' /\
        st w' = mkState (timeLeft (st w)) false Complete
                  (holdDuration (st w)) (JS.succ total) true /\
        meditation_count w' = Some (JS.toString (JS.succ total))
  | Some e =>
      exists w',
        handleComplete total w = Throw e w' /\
        totalSessions (st w') = totalSessions (st w) /\
        meditation_count w' = meditation_count w
  end.
Proof.
  destruct w as [[tl act ph h tot sc] a ti tp ts n t mc [c nd su] tn].
  destruct a, c, nd, su;
    cbv [audioThrows audioContextRef platform ctorThrows nodesThrow negb andb];
    unfold handleComplete, playBeep, ensureAudioContext, newAudioContext,
      createNodes, startOscillator, resume; wred;
    cbv [ctorThrows nodesThrow suspended];
    eexists; (split; [reflexivity|]); split; reflexivity.
Qed.

(** *** Runs of events *)

Lemma anytime_offered e w : anytime e -> offered e w.
Proof. destruct e; cbn; tauto. Qed.

Lemma reachable_run_events es : forall w w',
  reachable w -> Forall anytime es -> run es w = Ret tt w' -> reachable w'.
Proof.
  induction es as [|e es IH]; intros w w' Hw Hes Hrun.
  - injection Hrun as <-. exact Hw.
  - cbn in Hrun. unfold bind in Hrun.
    destruct (step e w) as [[] w1|x w1] eqn:E; [|discriminate].
    inversion Hes as [|e' es' He Hes']; subst.
    apply (IH w1 w'); [|exact Hes' | exact Hrun].
    eapply reach_step; [exact Hw | apply anytime_offered; exact He | exact E].
Qed.

Lemma firstVisit_reachable : reachable firstVisit.
Proof. apply (reach_mount None quiet). reflexivity. Qed.

Lemma midInhale_reachable : reachable midInhale.
Proof.
  apply (reachable_run_events [ClickStartPause; Elapse 2500] firstVisit).
  - exact firstVisit_reachable.
  - repeat constructor.
  - vm_compute. reflexivity.
Qed.

Lemma quiet_reliable : reliable quiet.
Proof. split; reflexivity. Qed.

Lemma finishedSession_reachable : reachable finishedSession.
Proof.
  apply (reachable_run_events [ClickStartPause; Elapse 300000] firstVisit).
  - exact firstVisit_reachable.
  - repeat constructor.
  - vm_compute. reflexivity.
Qed.


Lemma elapse_idle_state ms w :
  timers w = [] -> exists w', elapse ms w = Ret tt w' /\ st w' = st w.
Proof.
  intros H. rewrite elapse_idle by exact H.
  eexists. split; [reflexivity|]. destruct w; reflexivity.
Qed.

Lemma finishedSession_state :
  st finishedSession = mkState 0 false Complete 1 (JS.Num 1) true.
Proof. vm_compute. reflexivity. Qed.


(** * The claims *)

(** ** Session Controller *)

(** C8. [setHoldDuration(seconds)] does nothing at all while the session is
    active (the whole world, hence the whole session state, is unchanged);
    while it is inactive it sets [holdDuration] to the requested value and
    changes no other field. *)
Theorem setHoldDuration_only_when_inactive (w : World) (sec : Z) :
  step (ClickHold sec) w =
    Ret tt
      (if isActive (st w) then w
       else upd_st (fun s => mkState (timeLeft s) (isActive s) (phase s) sec
                               (totalSessions s) (showCelebration s)) w).
Proof.
  destruct (isActive (st w)) eqn:E.
  - apply click_hold_active; exact E.
  - apply click_hold_idle; exact E.
Qed.

(** C10. In every reachable state [holdDuration] is one of 1, 2, 4: it
    starts at 1, the selector offers exactly 1, 2 and 4, and no other event
    changes it.  The other timing constants are 300 s for the session and
    4 s for Inhale and for Exhale. *)
Theorem holdDuration_in_allowed_set (w : World) :
  reachable w ->
  In (holdDuration (st w)) [1; 2; 4] /\
  holdDuration initialState = 1 /\
  holdOptions = [1; 2; 4] /\
  (forall e w',
     offered e w -> step e w = Ret tt w' ->
     holdDuration (st w') <> holdDuration (st w) ->
     exists sec,
       e = ClickHold sec /\ In sec [1; 2; 4] /\ holdDuration (st w') = sec) /\
  INITIAL_TIME = 300 /\ INHALE_TIME = 4 /\ EXHALE_TIME = 4.
Proof.
  intros Hr. pose proof (reachable_Inv _ Hr) as HI.
  split; [apply HI|]. repeat split.
  intros e w' Ho Hs Hne.
  pose proof (step_inv e w HI Ho) as HP. rewrite Hs in HP.
  destruct HP as [_ Hframe].
  destruct e as [| | |sec|ms];
    try (exfalso; apply Hne; apply Hframe; intros sec; discriminate).
  exists sec. split; [reflexivity|]. split; [exact Ho|].
  destruct (isActive (st w)) eqn:Ea.
  - rewrite click_hold_active in Hs by exact Ea. injection Hs as <-.
    exfalso. apply Hne. reflexivity.
  - rewrite click_hold_idle in Hs by exact Ea. injection Hs as <-.
    destruct w as [[tl act ph h tot sc] a ti tp ts n t mc p tn]. reflexivity.
Qed.

Lemma holdDuration_in_allowed_set_witness :
  reachable firstVisit /\ In (holdDuration (st firstVisit)) [1; 2; 4].
Proof.
  split; [exact firstVisit_reachable|].
  apply (holdDuration_in_allowed_set firstVisit). exact firstVisit_reachable.
Defined.

(** C9. [reset()] is idempotent: from every reachable state a second reset
    changes nothing, and the state after one reset has
    [timeLeft = INITIAL_TIME], [phase = Ready], [isActive = false],
    [showCelebration = false] and no pending timer of either kind. *)
Theorem reset_idempotent (w : World) :
  reachable w ->
  exists w1,
    step ClickReset w = Ret tt w1 /\
    step ClickReset w1 = Ret tt w1 /\
    run [ClickReset; ClickReset] w = run [ClickReset] w /\
    st w1 = mkState INITIAL_TIME false Ready (holdDuration (st w))
              (totalSessions (st w)) false /\
    timers w1 = [].
Proof.
  intros Hr.
  destruct (click_reset_total _ (reachable_Inv _ Hr))
    as (w1 & E1 & [_ Ht] & Hs & _).
  assert (E2 : step ClickReset w1 = Ret tt w1).
  { apply click_reset_again; [exact Ht|]. rewrite Hs. reflexivity. }
  exists w1. repeat split; auto.
  cbn [run]. unfold bind, ret. rewrite E1, E2. reflexivity.
Qed.

Lemma reset_idempotent_witness :
  reachable midInhale /\
  exists w1,
    step ClickReset midInhale = Ret tt w1 /\
    step ClickReset w1 = Ret tt w1 /\
    phase (st w1) = Ready /\ timers w1 = [].
Proof.
  split; [exact midInhale_reachable|].
  destruct (reset_idempotent midInhale midInhale_reachable)
    as (w1 & E1 & E2 & _ & Hs & Ht).
  exists w1. rewrite Hs. repeat split; assumption.
Defined.



(** ** Phase Sequencer *)

(** C3. Once the session is deactivated, by pausing an active session or by
    a reset, no timer is pending any more, so however much time passes the
    state, and with it [phase], stays as the deactivation left it: Ready
    after a reset, the frozen phase after a pause. *)
Theorem deactivation_cancels_pending_transition (w : World) (e : Event) :
  reachable w -> reliable (platform w) ->
  e = ClickReset \/ (e = ClickStartPause /\ isActive (st w) = true) ->
  exists w1,
    step e w = Ret tt w1 /\
    isActive (st w1) = false /\
    timers w1 = [] /\
    phase (st w1) = match e with
                    | ClickReset => Ready
                    | _ => phase (st w)
                    end /\
    forall ms, exists w2, elapse ms w1 = Ret tt w2 /\ st w2 = st w1.
Proof.
  intros Hr HR [-> | [-> Ha]].
  - destruct (click_reset_total _ (reachable_Inv _ Hr))
      as (w1 & E1 & [Hi Ht] & Hs & _).
    exists w1. split; [exact E1|]. split; [exact Hi|]. split; [exact Ht|].
    split; [rewrite Hs; reflexivity|].
    intros ms. apply elapse_idle_state. exact Ht.
  - destruct (reachable_run _ Hr Ha) as (i & r & sv & Hrun).
    destruct (post_reliable _ _ _ (click_pause w i r sv Hrun) HR)
      as (w1 & E1 & [Hi Ht] & Hs & _).
    exists w1. split; [exact E1|]. split; [exact Hi|]. split; [exact Ht|].
    split; [rewrite Hs; reflexivity|].
    intros ms. apply elapse_idle_state. exact Ht.
Qed.

Lemma deactivation_cancels_pending_transition_witness :
  reachable midInhale /\ reliable (platform midInhale) /\
  isActive (st midInhale) = true /\ phase (st midInhale) = Inhale /\
  timers midInhale <> [] /\
  exists w1,
    step ClickStartPause midInhale = Ret tt w1 /\
    timers w1 = [] /\
    forall ms, exists w2, elapse ms w1 = Ret tt w2 /\ st w2 = st w1.
Proof.
  split; [exact midInhale_reachable|]. split; [exact quiet_reliable|].
  split; [vm_compute; reflexivity|]. split; [vm_compute; reflexivity|].
  split; [vm_compute; discriminate|].
  destruct (deactivation_cancels_pending_transition midInhale ClickStartPause
              midInhale_reachable quiet_reliable
              (or_intror (conj eq_refl eq_refl)))
    as (w1 & E & _ & Ht & _ & Hms).
  exists w1. split; [exact E|]. split; [exact Ht | exact Hms].
Defined.

(** The scenario of the specification: start, pause half way through the
    first Inhale, reset, then let more than the Inhale time pass. *)
Example pause_then_reset_scenario :
  exists w,
    run [ClickStartPause; Elapse 2500; ClickStartPause; ClickReset;
         Elapse 10000] firstVisit = Ret tt w /\
    phase (st w) = Ready /\ timers w = [].
Proof. eexists. split; [vm_compute; reflexivity|]. split; reflexivity. Qed.

(** The guard inside the callbacks reads the [isActive] its closure captured,
    which is [true] for every pending transition of an active session; the
    cancellation above is what keeps a transition from firing late. *)
Example stale_guard_would_fire :
  phase (st (final (runCallback (CbAfterInhale true 1)
                      (final (step ClickStartPause midInhale))))) = Hold.
Proof. vm_compute. reflexivity. Qed.



(** The first cycle of a first session, second by second, and the restart. *)
Example first_cycle :
  map (fun ms =>
         phase (st (final (run [ClickStartPause; Elapse ms] firstVisit))))
    [0; 3999; 4000; 4999; 5000; 8999; 9000; 12999; 13000]%N
  = [Inhale; Inhale; Hold; Hold; Exhale; Exhale; Inhale; Inhale; Hold].
Proof. vm_compute. reflexivity. Qed.

(** ** Session Clock *)

(** With nothing on the clock the timer effect registers no interval, so an
    active session at [timeLeft = 0] never ticks and never completes. *)
Lemma clock_at_zero_never_completes :
  exists w,
    startClockAt 0 firstVisit = Ret tt w /\
    timeLeft (st w) = 0 /\ isActive (st w) = true /\
    timerIntervalRef w = None /\
    forall ms,
      exists w',
        elapse ms w = Ret tt w' /\
        timeLeft (st w') = 0 /\ isActive (st w') = true /\
        phase (st w') <> Complete /\ showCelebration (st w') = false /\
        totalSessions (st w') = JS.Num 0 /\ meditation_count w' = None.
Proof.
  eexists. split; [vm_compute; reflexivity|].
  split; [reflexivity|]. split; [reflexivity|]. split; [reflexivity|].
  intros ms.
  match goal with
  | |- exists w', elapse ms ?w = _ /\ _ =>
      assert (HS : SeqOnly w 1 4000)
        by (cbv [SeqOnly holdOptions In]; wred; repeat split; try lia; auto;
            eexists; repeat split; try reflexivity; lia);
      destruct (post_reliable _ _ _ (elapse_seqonly ms w 1 4000 HS)
                  quiet_reliable)
        as (w' & E & _ & Ht & Htot & Hsc & Hmc & j' & q' & HS')
  end.
  exists w'. split; [exact E|]. split; [exact Ht|].
  split; [apply HS'|]. split; [eapply SeqOnly_phase; exact HS'|].
  split; [exact Hsc|]. split; [exact Htot | exact Hmc].
Qed.

(** C1 (as amended: [t] from 1).  A clock started with [t] seconds, for
    [1 <= t <= INITIAL_TIME], shows [t - k] after [k] whole seconds, so it
    is decremented exactly [t] times, the last of them completing the
    session at [1000 * t] milliseconds and not before; [timeLeft] is never
    negative; and the tick that finds [timeLeft <= 1] stores 0 and
    completes instead of decrementing. *)
Theorem clock_counts_down (w0 : World) (t : Z) :
  reachable w0 -> isActive (st w0) = false -> reliable (platform w0) ->
  1 <= t <= INITIAL_TIME ->
  exists w,
    startClockAt t w0 = Ret tt w /\
    timeLeft (st w) = t /\ isActive (st w) = true /\
    (forall ms,
       Z.of_N ms < 1000 * t ->
       exists w',
         elapse ms w = Ret tt w' /\
         timeLeft (st w') = t - Z.of_N ms / 1000 /\
         0 < timeLeft (st w') /\
         isActive (st w') = true /\
         totalSessions (st w') = totalSessions (st w0)) /\
    (forall ms,
       1000 * t <= Z.of_N ms ->
       exists w',
         elapse ms w = Ret tt w' /\
         timeLeft (st w') = 0 /\ isActive (st w') = false /\
         phase (st w') = Complete /\ showCelebration (st w') = true /\
         totalSessions (st w') = JS.succ (totalSessions (st w0))) /\
    (forall w1 total,
       reliable (platform w1) ->
       exists w2,
         tickUpdater total w1 = Ret tt w2 /\
         if timeLeft (st w1) <=? 1
         then st w2 = mkState 0 false Complete (holdDuration (st w1))
                        (JS.succ total) true
         else st w2 = mkState (timeLeft (st w1) - 1) (isActive (st w1))
                        (phase (st w1)) (holdDuration (st w1))
                        (totalSessions (st w1)) (showCelebration (st w1))).
Proof.
  intros Hr Ha HR Ht. pose proof (reachable_Inv _ Hr) as HI.
  destruct (post_reliable _ _ _
              (startClockAt_idle t w0 HI (reachable_idle _ Hr Ha) Ht) HR)
    as (w & Es & _ & Hp & _ & Hs & i & sv & Hrun & _).
  assert (Htl : timeLeft (st w) = t) by (rewrite Hs; reflexivity).
  assert (Htot : totalSessions (st w) = totalSessions (st w0))
    by (rewrite Hs; reflexivity).
  assert (HRw : reliable (platform w)) by (rewrite Hp; exact HR).
  assert (HL : msLeft w 1000 = 1000 * t) by (unfold msLeft; lia).
  exists w. split; [exact Es|]. split; [exact Htl|].
  split; [apply Hrun|]. split; [|split].
  - intros ms Hms.
    destruct (post_reliable _ _ _
                (elapse_run ms w i 1000 sv Hrun ltac:(lia)) HRw)
      as (w' & Ee & _ & _ & (_ & Htot' & _) & i' & r' & sv' & Hrun' & HL' & _).
    exists w'. split; [exact Ee|].
    pose proof (Run_timeLeft _ _ _ _ _ Hrun' HL') as Htl'.
    assert (Hd : timeLeft (st w') = t - Z.of_N ms / 1000).
    { rewrite Htl', HL.
      replace (1000 * t - Z.of_N ms - 1)
        with ((999 - Z.of_N ms mod 1000)
              + (t - 1 - Z.of_N ms / 1000) * 1000).
      - rewrite Z.div_add by lia.
        pose proof (Z.mod_pos_bound (Z.of_N ms) 1000 ltac:(lia)).
        rewrite Z.div_small by lia. lia.
      - pose proof (Z.div_mod (Z.of_N ms) 1000 ltac:(lia)). lia. }
    split; [exact Hd|].
    split; [destruct Hrun' as ((_ & Hb & _) & _); lia|].
    split; [apply Hrun' | congruence].
  - intros ms Hms.
    destruct (post_reliable _ _ _
                (elapse_past_completion ms w i 1000 sv Hrun ltac:(lia)) HRw)
      as (w' & Ee & _ & _ & Hs' & _).
    exists w'. split; [exact Ee|]. rewrite Hs'.
    cbn [completedState timeLeft isActive phase showCelebration
         totalSessions].
    rewrite Htot. repeat split.
  - intros w1 total HR1.
    unfold tickUpdater.
    destruct (timeLeft (st w1) <=? 1).
    + pose proof (handleComplete_spec total w1) as HC.
      assert (HN : audioThrows w1 = None).
      { destruct HR1 as [Hc Hn]. unfold audioThrows.
        rewrite Hc, Hn, andb_false_r. reflexivity. }
      rewrite HN in HC. destruct HC as (w2 & E2 & Hs2 & _).
      unfold bind. rewrite E2.
      eexists. split; [reflexivity|].
      destruct w2 as [s2 a2 ti2 tp2 ts2 n2 t2 mc2 p2 tn2].
      cbn in Hs2. subst s2. reflexivity.
    + eexists. split; [reflexivity|].
      destruct w1 as [[tl act ph h tot sc] a ti tp ts n tm mc p tn].
      reflexivity.
Qed.

Lemma clock_counts_down_witness :
  reachable firstVisit /\ isActive (st firstVisit) = false /\
  reliable (platform firstVisit) /\ 1 <= 5 <= INITIAL_TIME /\
  exists w,
    startClockAt 5 firstVisit = Ret tt w /\
    (forall ms,
       Z.of_N ms < 1000 * 5 ->
       exists w',
         elapse ms w = Ret tt w' /\
         timeLeft (st w') = 5 - Z.of_N ms / 1000 /\
         isActive (st w') = true) /\
    (forall ms,
       1000 * 5 <= Z.of_N ms ->
       exists w',
         elapse ms w = Ret tt w' /\
         timeLeft (st w') = 0 /\ phase (st w') = Complete).
Proof.
  split; [exact firstVisit_reachable|]. split; [reflexivity|].
  split; [exact quiet_reliable|].
  assert (B : 1 <= 5 <= INITIAL_TIME) by (unfold INITIAL_TIME; lia).
  split; [exact B|].
  destruct (clock_counts_down firstVisit 5 firstVisit_reachable eq_refl
              quiet_reliable B) as (w & E & _ & _ & Hbefore & Hafter & _).
  exists w. split; [exact E|]. split.
  - intros ms Hms. destruct (Hbefore ms Hms) as (w' & Ee & Ht & _ & Ha & _).
    exists w'. split; [exact Ee|]. split; [exact Ht | exact Ha].
  - intros ms Hms.
    destruct (Hafter ms Hms) as (w' & Ee & Ht & _ & Hph & _).
    exists w'. split; [exact Ee|]. split; [exact Ht | exact Hph].
Defined.

(** The completion scenario of the specification, five seconds long. *)
Example five_second_session :
  exists w,
    (startClockAt 5 ;; elapse 5000) firstVisit = Ret tt w /\
    st w = mkState 0 false Complete 1 (JS.Num 1) true /\
    meditation_count w = Some "1"%string /\
    st (final ((startClockAt 5 ;; elapse 4999) firstVisit))
      = mkState 1 true Hold 1 (JS.Num 0) false.
Proof.
  eexists. split; [vm_compute; reflexivity|].
  split; [reflexivity|]. split; [reflexivity|]. vm_compute. reflexivity.
Qed.



(** ** Durable counter store *)



(** ** Tone cue *)

(** A tone that throws is not swallowed: without [AudioContext] the start
    button throws and the session never starts; and if the oscillator
    cannot be created when the last second of a session runs out, the tick
    throws before the counter is incremented or stored. *)
Lemma tone_failure_is_not_swallowed :
  (exists e w',
     step ClickStartPause (withPlatform noAudio firstVisit) = Throw e w' /\
     isActive (st w') = false) /\
  (exists e w',
     elapse 1000 (withPlatform brokenNodes lastSecond) = Throw e w' /\
     totalSessions (st w') = totalSessions (st lastSecond) /\
     totalSessions (st w') = JS.Num 0 /\
     meditation_count w' = None) /\
  (exists w',
     elapse 1000 lastSecond = Ret tt w' /\
     totalSessions (st w') = JS.Num 1 /\
     meditation_count w' = Some "1"%string).
Proof.
  split; [|split].
  - eexists _, _. split; [vm_compute; reflexivity | reflexivity].
  - eexists _, _. split; [vm_compute; reflexivity|].
    split; [vm_compute; reflexivity|]. split; reflexivity.
  - eexists. split; [vm_compute; reflexivity|]. split; reflexivity.
Qed.

(** C7 (as amended).  A suspended audio context changes nothing: the tone
    call returns and [complete()] takes full effect.  An exception of the
    audio resource is not caught: the tone call throws it on, and
    [complete()] then stops at the tone, before the counter is incremented
    and stored. *)
Theorem tone_failure_in_complete (w : World) (total : JS.number) :
  (forall freq type,
     match audioThrows w with
     | None =>
         playBeep freq type w =
           Ret tt (upd_tones (fun l => l ++ [(freq, type)])
                     (upd_audioContextRef true w))
     | Some e => exists w', playBeep freq type w = Throw e w'
     end) /\
  match audioThrows w with
  | None =>
      exists w',
        handleComplete total w = Ret tt w' /\
        st w' = mkState (timeLeft (st w)) false Complete
                  (holdDuration (st w)) (JS.succ total) true /\
        meditation_count w' = Some (JS.toString (JS.succ total))
  | Some e =>
      exists w',
        handleComplete total w = Throw e w' /\
        totalSessions (st w') = totalSessions (st w) /\
        meditation_count w' = meditation_count w
  end.
Proof.
  split; [|apply handleComplete_spec].
  intros freq type. pose proof (playBeep_throws freq type w) as H.
  destruct (audioThrows w); [|exact H].
  destruct H as (w' & E & _). eauto.
Qed.

(** A suspended context is no failure for the model: [audioThrows] does not
    look at it. *)
Example suspended_context_is_tolerated :
  let w := withPlatform (mkPlatform false false true) lastSecond in
  audioThrows w = None /\
  exists w',
    elapse 1000 w = Ret tt w' /\
    st w' = mkState 0 false Complete 1 (JS.Num 1) true /\
    meditation_count w' = Some "1"%string.
Proof.
  split; [vm_compute; reflexivity|].
  eexists. split; [vm_compute; reflexivity|]. split; reflexivity.
Qed.

(** ** The timer display *)

Lemma below_by_cases (P : Z -> Prop) (n : nat) :
  (forall k, (k < n)%nat -> P (Z.of_nat k)) ->
  forall z, 0 <= z < Z.of_nat n -> P z.
Proof.
  intros H z Hz. rewrite <- (Z2Nat.id z) by lia. apply H. lia.
Qed.

Lemma seconds_padded k :
  0 <= k < 60 -> padStart 2 "0" (JS.toString (JS.Num k)) = twoDigits k.
Proof.
  apply (below_by_cases
           (fun k => padStart 2 "0" (JS.toString (JS.Num k)) = twoDigits k)
           60).
  intros n Hn.
  do 60 (destruct n as [|n]; [vm_compute; reflexivity|]). lia.
Qed.

Lemma formatTime_shape_aux s :
  0 <= s ->
  formatTime s
  = (JS.toString (JS.Num (s / 60)) ++ ":" ++ twoDigits (s mod 60))%string.
Proof.
  intros Hs. unfold formatTime. cbv zeta.
  rewrite Z.rem_mod_nonneg by lia.
  rewrite seconds_padded by (apply Z.mod_pos_bound; lia). reflexivity.
Qed.







Example formatTime_examples :
  map formatTime [300; 299; 60; 59; 9; 0]
  = ["5:00"; "4:59"; "1:00"; "0:59"; "0:09"; "0:00"]%string.
Proof. vm_compute. reflexivity. Qed.

(** ** Invariants of the rendered state *)

Lemma post_and o w (P Q : World -> Prop) :
  post o w P -> post o w Q -> post o w (fun w' => P w' /\ Q w').
Proof. destruct o; cbn; auto. Qed.

Lemma Tidy_reset s : Tidy (resetState s).
Proof.
  cbv [Tidy resetState inCycle]; cbn.
  repeat split; intros; try discriminate; auto; cbv [INITIAL_TIME] in *; lia.
Qed.

Lemma Tidy_completed s : Tidy (completedState s).
Proof.
  cbv [Tidy completedState inCycle]; cbn.
  repeat split; intros; try discriminate; auto.
Qed.

Lemma nextPhase_inCycle p : inCycle p -> inCycle (nextPhase p).
Proof. cbv [inCycle]. intros [-> | [-> | ->]]; cbn; auto. Qed.

Lemma Tidy_running s s' :
  Tidy s -> isActive s = true ->
  isActive s' = true -> 1 <= timeLeft s' ->
  showCelebration s' = showCelebration s ->
  inCycle (phase s') ->
  Tidy s'.
Proof.
  intros (Ha & Hc & Hs & Hr) Act Act' Ht Hsc Hin.
  pose proof (Ha Act) as Hin0.
  assert (N0 : phase s <> Complete)
    by (destruct Hin0 as [E | [E | E]]; rewrite E; discriminate).
  assert (N1 : phase s' <> Complete)
    by (destruct Hin as [E | [E | E]]; rewrite E; discriminate).
  assert (N2 : phase s' <> Ready)
    by (destruct Hin as [E | [E | E]]; rewrite E; discriminate).
  repeat split; intros; try tauto; try lia.
  - exfalso. apply N0. apply Hs. congruence.
Qed.

Lemma ms_step_tidy w :
  Inv w -> Tidy (st w) ->
  post (ms_step w) w (fun w' => Tidy (st w')).
Proof.
  intros HI HT. pose proof HI as (_ & _ & _ & [Hi | (i & r & sv & HR)]).
  - rewrite ms_step_idle by apply Hi. cbn. destruct w; exact HT.
  - destruct (Z.eq_dec (msLeft w r) 1) as [E|E].
    + eapply post_imp; [eapply ms_step_complete; eauto|].
      cbv beta. intros w' (_ & _ & _ & _ & Hs & _).
      rewrite Hs. apply Tidy_completed.
    + assert (2 <= msLeft w r).
      { destruct HR as ((_ & Htl & _) & Hr & _). cbv [msLeft] in *. lia. }
      eapply post_imp; [eapply ms_step_run; eauto|].
      cbv beta.
      intros w' (_ & _ & (_ & _ & Hsc & _) & i' & sv' & HS & HR' & _).
      pose proof HR as ((Act & _) & _).
      pose proof HR' as ((Act' & Ht' & _) & _).
      apply (Tidy_running (st w)); auto; try lia.
      destruct HT as (Ha & _). specialize (Ha Act).
      destruct sv as [|j q f]; cbv [seqStep] in HS.
      * destruct HS as [_ ->]. exact Ha.
      * destruct (q =? 1); destruct HS as [_ ->];
          [apply nextPhase_inCycle|]; exact Ha.
Qed.

Lemma elapse_tidy ms : forall w,
  Inv w -> Tidy (st w) ->
  post (elapse ms w) w (fun w' => Tidy (st w')).
Proof.
  induction ms as [|ms IH] using N.peano_ind; intros w HI HT.
  - exact HT.
  - rewrite elapse_succ.
    eapply post_bind;
      [apply post_and; [apply ms_step_inv; exact HI
                       | apply ms_step_tidy; assumption]|].
    cbv beta. intros w1 [[[HI1 [Hp1 _]] _] HT1].
    split; [exact Hp1|]. apply IH; assumption.
Qed.

Lemma step_tidy e w :
  Inv w -> Tidy (st w) -> offered e w ->
  post (step e w) w (fun w' => Tidy (st w')).
Proof.
  intros HI HT Ho. destruct e as [| | |sec|ms].
  - destruct (Inv_cases _ HI) as [[Hidle Ha] | (i & r & sv & HR & Ha)].
    + destruct (Z.eq_dec (timeLeft (st w)) 0) as [E|E].
      * eapply post_imp; [apply click_start_finished; auto|].
        cbv beta. intros w' (_ & Hs & _). rewrite Hs. apply Tidy_reset.
      * eapply post_imp; [apply click_start_idle; auto|].
        cbv beta. intros w' (_ & _ & _ & Hs & _). rewrite Hs.
        destruct HT as (_ & Hc & Hsc & Hr).
        cbv [Tidy activated inCycle]; cbn.
        destruct (phase (st w)) eqn:Ep; cbn;
          repeat split; intros; try discriminate; auto;
          try tauto; try (exfalso; tauto).
        all: try (cbv [INITIAL_TIME] in *;
                  specialize (Hr eq_refl); lia).
        all: try (apply Hsc in H; discriminate).
    + eapply post_imp; [eapply click_pause; eauto|].
      cbv beta. intros w' (_ & Hs & _). rewrite Hs.
      destruct HT as (Hin & Hc & Hsc & Hr).
      specialize (Hin Ha).
      cbv [Tidy inCycle] in *; cbn.
      repeat split; intros; try discriminate; try tauto;
        try (exfalso; destruct Hin as [E | [E | E]]; congruence).
  - destruct (click_reset_total _ HI) as (w' & -> & _ & Hs & _).
    cbn. rewrite Hs. apply Tidy_reset.
  - destruct (click_done_total _ HI) as (w' & -> & _ & Hs & _).
    cbn. rewrite Hs. apply Tidy_reset.
  - destruct (Inv_cases _ HI) as [[Hidle Ha] | (i & r & sv & HR & Ha)].
    + rewrite click_hold_idle by exact Ha. cbn.
      destruct w as [[tl act ph h tot sc] a ti tp ts n t mc p tn]. exact HT.
    + rewrite click_hold_active by exact Ha. exact HT.
  - apply elapse_tidy; assumption.
Qed.

Lemma reachable_tidy w : reachable w -> Tidy (st w).
Proof.
  induction 1 as [stored p w Hm | w e w' Hr IH Ho Hs].
  - destruct (mount_total stored p) as (w1 & E & _ & _ & _ & _ & _ & Hst).
    rewrite E in Hm. injection Hm as <-. rewrite Hst.
    cbv [Tidy inCycle]; cbn.
    repeat split; intros; try discriminate; auto;
      cbv [INITIAL_TIME] in *; lia.
  - pose proof (step_tidy e w (reachable_Inv _ Hr) IH Ho) as HP.
    rewrite Hs in HP. exact HP.
Qed.


(** ** Pending timers *)

Lemma Inv_timers w :
  Inv w ->
  (List.length (filter isInterval (timers w)) <= 1)%nat /\
  (List.length (filter isTimeout (timers w)) <= 1)%nat /\
  (isActive (st w) = false -> timers w = []) /\
  (isActive (st w) = true ->
   exists i d,
     timerIntervalRef w = Some i /\
     filter isInterval (timers w)
     = [mkTimer i d (Interval 1000) (CbTick (totalSessions (st w)))] /\
     now w < d <= now w + 1000) /\
  (forall t,
     In t (timers w) ->
     captures (st w) (callback t) /\ now w < due t /\
     (isTimeout t = true -> phaseTimeoutRef w = Some (tid t))).
Proof.
  intros H. open_world w.
  destruct H as (Htl & Hh & Hn & [[-> ->] | (i & r & sv & HP & Hr & Hq)]).
  - cbn. repeat split; auto; try lia; try discriminate; contradiction.
  - destruct HP as (-> & Htl' & _ & -> & Hi & Hs).
    destruct sv as [|j q first].
    + subst ts. cbn. repeat split; auto; try lia; try discriminate.
      * intros _. exists i, (t + r). repeat split; lia.
      * destruct H as [<- | []]. reflexivity.
      * destruct H as [<- | []]. cbn. lia.
      * destruct H as [<- | []]. discriminate.
    + open_seq Hs Hcb; destruct first; cbn;
        repeat split; auto; try lia; try discriminate;
        try (intros _; exists i, (t + r); repeat split; lia);
        try (destruct H1 as [<- | [<- | []]]; cbn; auto; try lia;
             try discriminate; try reflexivity).
Qed.

(** ** Done and Reset *)

Lemma done_is_reset_inv w :
  Inv w -> step ClickDone w = step ClickReset w.
Proof.
  intros H. open_world w.
  destruct H as (Htl & Hh & Hn & [[-> ->] | (i & r & sv & HP & Hr & Hq)]).
  - case_handle tp; case_handle ti; destruct (Z.eq_dec tl 300); wgo;
      reflexivity.
  - destruct HP as (-> & Htl' & _ & -> & Hi & Hs).
    destruct sv as [|j q first].
    + subst ts.
      destruct tp as [jp|]; [destruct (Z.eq_dec jp 0), (Z.eq_dec jp i)|];
        wgo; reflexivity.
    + open_seq Hs Hcb; destruct first; wgo; reflexivity.
Qed.

(** ** The counter and the store *)






(** ** Pausing and resuming *)

Lemma resumed_clock tl ms :
  0 <= ms < 1000 * tl ->
  (1000 * tl - ms - 1) / 1000 + 1 = tl - ms / 1000.
Proof.
  intros H.
  pose proof (Z.div_mod ms 1000 ltac:(lia)) as E.
  pose proof (Z.mod_pos_bound ms 1000 ltac:(lia)) as B.
  set (a := ms / 1000) in *. set (b := ms mod 1000) in *.
  replace (1000 * tl - ms - 1) with ((999 - b) + (tl - a - 1) * 1000) by lia.
  rewrite Z.div_add by lia. rewrite Z.div_small by lia. lia.
Qed.

Lemma pause_resume w :
  reachable w -> isActive (st w) = true ->
  post (step ClickStartPause w) w (fun w1 =>
    Idle w1 /\ now w1 = now w /\
    post (step ClickStartPause w1) w1 (fun w2 =>
      st w2 = st w /\ now w2 = now w /\ platform w2 = platform w /\
      meditation_count w2 = meditation_count w /\
      exists i, Run w2 i 1000 SeqOff)).
Proof.
  intros Hr Ha.
  pose proof (reachable_Inv _ Hr) as HI.
  pose proof (reachable_tidy _ Hr) as (Hin & _).
  specialize (Hin Ha).
  destruct (reachable_run _ Hr Ha) as (i & r & sv & HR).
  pose proof HR as ((_ & Htl & _) & _).
  pose proof (step_inv ClickStartPause w HI I) as HK.
  eapply post_imp;
    [apply post_and; [exact HK | eapply click_pause; exact HR]|].
  cbv beta.
  intros w1 [[(HI1 & _) _] (Hidle & Hs & Hn & Hp & Hm & _)].
  split; [exact Hidle|]. split; [exact Hn|].
  assert (Hne : timeLeft (st w1) <> 0) by (rewrite Hs; cbn; lia).
  eapply post_imp; [apply click_start_idle; assumption|].
  cbv beta. intros w2 (Hn2 & Hp2 & Hm2 & Hs2 & i2 & sv2 & HR2 & Hsq).
  assert (Est : st w2 = st w).
  { rewrite Hs2, Hs. cbv [activated]; cbn.
    destruct (st w) as [tl act ph h tot sc]; cbn in *. subst act.
    destruct Hin as [-> | [-> | ->]]; reflexivity. }
  repeat split; try congruence.
  exists i2. rewrite Hs in Hsq. cbv [startedSeq] in Hsq; cbn in Hsq.
  destruct Hin as [E | [E | E]]; rewrite E in Hsq; cbn in Hsq;
    subst sv2; exact HR2.
Qed.

Lemma frozen_run w i ms :
  Run w i 1000 SeqOff -> Z.of_N ms < 1000 * timeLeft (st w) ->
  post (elapse ms w) w (fun w' =>
    isActive (st w') = true /\
    phase (st w') = phase (st w) /\
    timeLeft (st w') = timeLeft (st w) - Z.of_N ms / 1000 /\
    List.filter isTimeout (timers w') = []).
Proof.
  intros HR HL.
  assert (EL : msLeft w 1000 = 1000 * timeLeft (st w)) by (cbv [msLeft]; lia).
  eapply post_imp; [eapply elapse_run; [exact HR | lia]|].
  cbv beta. intros w' (_ & _ & _ & i' & r' & sv' & HR' & HL' & [-> Hph]).
  pose proof HR' as ((Ha' & _ & _ & _ & _ & Hts) & _).
  split; [exact Ha'|]. split; [exact Hph|].
  split.
  - rewrite (Run_timeLeft _ _ _ _ _ HR' HL'), EL.
    apply resumed_clock. lia.
  - cbv beta zeta in Hts. rewrite Hts. reflexivity.
Qed.

(** ** Reloading the page *)


(** ** Tones *)

Lemma lastTone_app (l : list (Z * OscillatorType)) x :
  List.hd_error (List.rev (l ++ [x])) = Some x.
Proof. rewrite List.rev_unit. reflexivity. Qed.

Ltac heard HH :=
  cbv [Heard lastTone cue] in *; wred; wred_in HH;
  first
    [ exact HH
    | intros _; split; [reflexivity | apply lastTone_app]
    | intros HN; destruct (HH HN) as [-> ->]; split; reflexivity
    | intros HN; destruct (HH HN) as [_ ->]; split; reflexivity
    | intros HN; exfalso; apply HN; reflexivity ].

Lemma ms_step_heard w i r sv :
  Run w i r sv -> Heard w ->
  post (ms_step w) w Heard.
Proof.
  intros H HH.
  destruct_world w. shape_in H.
  destruct H as ((-> & Htl & Hh & -> & Hi & Hs) & Hr & Hq).
  pose proof (hold_range _ Hh) as Hh'.
  destruct sv as [|j q first].
  - subst ts.
    destruct (Z.eq_dec r 1) as [Hr1|Hr1];
      [destruct (Z.eq_dec tl 1) as [Ht1|Ht1]|].
    + destruct tp as [jp|]; [destruct (Z.eq_dec jp 0), (Z.eq_dec jp i)|];
        wgo; heard HH.
    + wgo; heard HH.
    + wgo; heard HH.
  - open_seq Hs Hcb.
    all: cbv [phaseMs INHALE_TIME EXHALE_TIME] in Hq.
    all: destruct first;
      (destruct (Z.eq_dec r 1) as [Hr1|Hr1]);
      (destruct (Z.eq_dec tl 1) as [Ht1|Ht1]);
      (destruct (Z.eq_dec q 1) as [Hq1|Hq1]); wgo.
    all: heard HH.
Qed.

Lemma Heard_ready w : phase (st w) = Ready -> Heard w.
Proof. intros E N. contradiction. Qed.

Lemma elapse_heard ms : forall w,
  Inv w -> Heard w ->
  post (elapse ms w) w Heard.
Proof.
  induction ms as [|ms IH] using N.peano_ind; intros w HI HH.
  - exact HH.
  - rewrite elapse_succ.
    eapply post_bind with (P := fun w1 => (Inv w1 /\ platform w1 = platform w)
                                          /\ Heard w1).
    + apply post_and.
      * eapply post_imp; [apply ms_step_inv; exact HI|].
        cbv beta. intros w1 [(HI1 & Hp1 & _) _]. split; assumption.
      * pose proof HI as (_ & _ & _ & [Hi | (i & r & sv & HR)]).
        -- rewrite ms_step_idle by apply Hi. cbn.
           destruct w; exact HH.
        -- eapply ms_step_heard; eauto.
    + cbv beta. intros w1 [[HI1 Hp1] HH1].
      split; [exact Hp1|]. apply IH; assumption.
Qed.

Lemma click_start_heard w :
  Inv w -> Idle w -> timeLeft (st w) <> 0 -> Heard w ->
  post (step ClickStartPause w) w Heard.
Proof.
  intros H HI Hne HH. open_world w.
  destruct HI as [-> ->].
  destruct H as (Htl & Hh & Hn & _).
  pose proof (hold_range _ Hh) as Hh'.
  destruct ph; case_handle tp; case_handle ti; wgo.
  all: heard HH.
Qed.

Lemma click_pause_heard w i r sv :
  Run w i r sv -> Heard w ->
  post (step ClickStartPause w) w Heard.
Proof.
  intros H HH. open_world w.
  destruct H as ((-> & Htl' & _ & -> & Hi & Hs) & Hr & Hq).
  destruct sv as [|j q first].
  - subst ts.
    destruct tp as [jp|]; [destruct (Z.eq_dec jp 0), (Z.eq_dec jp i)|]; wgo;
      heard HH.
  - open_seq Hs Hcb; destruct first; wgo; heard HH.
Qed.

Lemma step_heard e w :
  Inv w -> Heard w -> offered e w ->
  post (step e w) w Heard.
Proof.
  intros HI HH Ho. destruct e as [| | |sec|ms].
  - destruct (Inv_cases _ HI) as [[Hidle Ha] | (i & r & sv & HR & Ha)].
    + destruct (Z.eq_dec (timeLeft (st w)) 0) as [E|E].
      * eapply post_imp; [apply click_start_finished; auto|].
        cbv beta. intros w' (_ & Hs & _).
        apply Heard_ready. rewrite Hs. reflexivity.
      * apply click_start_heard; assumption.
    + eapply click_pause_heard; eauto.
  - destruct (click_reset_total _ HI) as (w' & -> & _ & Hs & _).
    cbn. apply Heard_ready. rewrite Hs. reflexivity.
  - destruct (click_done_total _ HI) as (w' & -> & _ & Hs & _).
    cbn. apply Heard_ready. rewrite Hs. reflexivity.
  - destruct (Inv_cases _ HI) as [[Hidle Ha] | (i & r & sv & HR & Ha)].
    + rewrite click_hold_idle by exact Ha. cbn.
      destruct w as [[tl act ph h tot sc] a ti tp ts n t mc p tn]. exact HH.
    + rewrite click_hold_active by exact Ha. exact HH.
  - apply elapse_heard; assumption.
Qed.

Lemma reachable_heard w : reachable w -> Heard w.
Proof.
  induction 1 as [stored p w Hm | w e w' Hr IH Ho Hs].
  - destruct (mount_total stored p) as (w1 & E & _ & _ & _ & _ & _ & Hst).
    rewrite E in Hm. injection Hm as <-.
    apply Heard_ready. rewrite Hst. reflexivity.
  - pose proof (step_heard e w (reachable_Inv _ Hr) IH Ho) as HP.
    rewrite Hs in HP. exact HP.
Qed.

(** ** The circle animation and the sequencer *)

Lemma elapse_1 w : elapse 1 w = ms_step w.
Proof.
  change 1%N with (N.succ 0). rewrite elapse_succ. unfold bind.
  destruct (ms_step w) as [[] w1|e w1]; reflexivity.
Qed.

Lemma duration_phaseMs h p :
  inCycle p ->
  exists d, duration (circleVariants h p) = Some d /\ phaseMs h p = 1000 * d.
Proof.
  intros [-> | [-> | ->]];
    cbv [circleVariants duration phaseMs INHALE_TIME EXHALE_TIME];
    eexists; (split; [reflexivity | lia]).
Qed.

Lemma Run_timeout w i r j q f :
  Run w i r (SeqOn j q f) ->
  exists t, In t (timers w) /\ isTimeout t = true /\ due t = now w + q.
Proof.
  intros ((_ & _ & _ & _ & _ & (cb & _ & _ & _ & _ & Hts)) & _).
  exists (mkTimer j (now w + q) Timeout cb).
  rewrite Hts. destruct f; cbn; auto.
Qed.

Lemma ms_step_entry w w' :
  Inv w -> ms_step w = Ret tt w' ->
  isActive (st w') = true -> phase (st w') <> phase (st w) ->
  exists t d,
    In t (timers w') /\ isTimeout t = true /\
    duration (circleTarget (st w')) = Some d /\
    due t = now w' + 1000 * d.
Proof.
  intros HI E Ha Hph.
  pose proof HI as (_ & _ & _ & [Hi | (i & r & sv & HR)]).
  - rewrite ms_step_idle in E by apply Hi. injection E as <-.
    destruct w; cbn in *. congruence.
  - destruct (Z.eq_dec (msLeft w r) 1) as [E1|E1].
    + pose proof (ms_step_complete _ _ _ _ HR E1) as HP.
      rewrite E in HP. cbn in HP. destruct HP as (_ & _ & _ & _ & Hs & _).
      rewrite Hs in Ha. discriminate.
    + assert (H2 : 2 <= msLeft w r).
      { destruct HR as ((_ & Htl & _) & Hr & _). cbv [msLeft] in *. lia. }
      pose proof (ms_step_run _ _ _ _ HR H2) as HP.
      rewrite E in HP. cbn in HP.
      destruct HP as (_ & _ & (Hh & _) & i' & sv' & HS & HR' & _).
      destruct sv as [|j q f]; cbv [seqStep] in HS.
      * destruct HS as [_ HS]. congruence.
      * destruct (Run_seq_facts _ _ _ _ _ _ HR) as (Hin & _).
        destruct (q =? 1).
        -- destruct HS as [(j' & f' & ->) Hp'].
           destruct (Run_timeout _ _ _ _ _ _ HR') as (t & Ht & Hk & Hd).
           destruct (duration_phaseMs (holdDuration (st w))
                       (nextPhase (phase (st w)))
                       (nextPhase_inCycle _ Hin)) as (d & Ed & Em).
           exists t, d. repeat split; auto.
           ++ unfold circleTarget. rewrite Hh, Hp'. exact Ed.
           ++ rewrite Hd, Em. reflexivity.
        -- destruct HS as [_ HS]. congruence.
Qed.

Lemma click_start_entry w w' :
  Inv w -> step ClickStartPause w = Ret tt w' ->
  isActive (st w') = true -> phase (st w') <> phase (st w) ->
  exists t d,
    In t (timers w') /\ isTimeout t = true /\
    duration (circleTarget (st w')) = Some d /\
    due t = now w' + 1000 * d.
Proof.
  intros HI E Ha Hph.
  destruct (Inv_cases _ HI) as [[Hidle Hact] | (i & r & sv & HR & Hact)].
  - destruct (Z.eq_dec (timeLeft (st w)) 0) as [E0|E0].
    + pose proof (click_start_finished _ HI Hidle E0) as HP.
      rewrite E in HP. cbn in HP. destruct HP as (_ & Hs & _).
      rewrite Hs in Ha. discriminate.
    + pose proof (click_start_idle _ HI Hidle E0) as HP.
      rewrite E in HP. cbn in HP.
      destruct HP as (_ & _ & _ & Hs & i & sv & HR & Hsq).
      cbv [startedSeq] in Hsq. rewrite Hs in Hph. cbv [activated] in Hph.
      cbn in Hph.
      destruct (phase (st w)) eqn:Ep; cbn in Hph, Hsq; try congruence.
      destruct Hsq as (j & f & ->).
      destruct (Run_timeout _ _ _ _ _ _ HR) as (t & Ht & Hk & Hd).
      exists t, INHALE_TIME.
      split; [exact Ht|]. split; [exact Hk|]. split.
      * unfold circleTarget. rewrite Hs. cbv [activated]. rewrite Ep.
        reflexivity.
      * rewrite Hd. cbv [INHALE_TIME]. lia.
  - pose proof (click_pause _ _ _ _ HR) as HP.
    rewrite E in HP. cbn in HP. destruct HP as (_ & Hs & _).
    rewrite Hs in Ha. discriminate.
Qed.

(** ** Whole sessions *)





(** * Further properties of the component *)

(** ** The clock display *)







(** X4. On every reachable screen the clock display [formatTime(timeLeft)]
    is four characters long: one minute digit, the colon, two second
    digits. *)
Theorem clock_display_has_four_characters (w : World) :
  reachable w ->
  String.length (formatTime (timeLeft (st w))) = 4%nat.
Proof.
  intros Hr. destruct (reachable_Inv _ Hr) as (Ht & _).
  cbv [INITIAL_TIME] in Ht.
  rewrite formatTime_shape_aux by lia.
  pose proof (Z.div_mod (timeLeft (st w)) 60 ltac:(lia)) as E.
  pose proof (Z.mod_pos_bound (timeLeft (st w)) 60 ltac:(lia)) as B.
  assert (Hm : 0 <= timeLeft (st w) / 60 < 6) by lia.
  revert Hm. generalize (timeLeft (st w) / 60). intros m Hm.
  assert (Hc : m = 0 \/ m = 1 \/ m = 2 \/ m = 3 \/ m = 4 \/ m = 5) by lia.
  destruct Hc as [-> | [-> | [-> | [-> | [-> | ->]]]]]; reflexivity.
Qed.

Lemma clock_display_has_four_characters_witness :
  reachable midInhale /\
  String.length (formatTime (timeLeft (st midInhale))) = 4%nat.
Proof.
  split; [exact midInhale_reachable|].
  apply (clock_display_has_four_characters midInhale).
  exact midInhale_reachable.
Defined.

(** ** The rendered state *)

(** X5. The resting screens.  The phase is Complete exactly when the clock
    shows zero, and exactly then the celebration overlay is up; a complete
    session is not active and has no pending timer.  The phase is Ready only
    with a full clock and an inactive session. *)
Theorem rest_states (w : World) :
  reachable w ->
  (phase (st w) = Complete <-> timeLeft (st w) = 0) /\
  (showCelebration (st w) = true <-> phase (st w) = Complete) /\
  (phase (st w) = Complete -> isActive (st w) = false /\ timers w = []) /\
  (phase (st w) = Ready ->
   timeLeft (st w) = INITIAL_TIME /\ isActive (st w) = false).
Proof.
  intros Hr. destruct (reachable_tidy _ Hr) as (Ha & Hc & Hs & Hrd).
  assert (Hoff : forall p, phase (st w) = p -> ~ inCycle p ->
                           isActive (st w) = false).
  { intros p Ep Hn. destruct (isActive (st w)) eqn:Act; [|reflexivity].
    exfalso. apply Hn. rewrite <- Ep. apply Ha. reflexivity. }
  split; [exact Hc|]. split; [exact Hs|]. split.
  - intros Ep.
    assert (Act : isActive (st w) = false).
    { apply (Hoff _ Ep). intros [E | [E | E]]; discriminate. }
    split; [exact Act|]. apply (reachable_idle _ Hr Act).
  - intros Ep. split; [apply Hrd; exact Ep|].
    apply (Hoff _ Ep). intros [E | [E | E]]; discriminate.
Qed.

Lemma rest_states_witness :
  reachable finishedSession /\
  phase (st finishedSession) = Complete /\
  timeLeft (st finishedSession) = 0 /\
  showCelebration (st finishedSession) = true /\
  isActive (st finishedSession) = false /\ timers finishedSession = [].
Proof.
  split; [exact finishedSession_reachable|].
  destruct (rest_states finishedSession finishedSession_reachable)
    as (Hc & Hs & Hi & _).
  assert (Ep : phase (st finishedSession) = Complete)
    by (rewrite finishedSession_state; reflexivity).
  split; [exact Ep|].
  split; [apply Hc; exact Ep|].
  split; [apply Hs; exact Ep|].
  apply Hi. exact Ep.
Defined.

(** X6. While a session is active the phase is one of Inhale, Hold and
    Exhale (never Ready or Complete), at least one second is left on the
    clock, the celebration overlay is down and the audio context exists. *)
Theorem active_session_state (w : World) :
  reachable w -> isActive (st w) = true ->
  inCycle (phase (st w)) /\
  1 <= timeLeft (st w) <= INITIAL_TIME /\
  showCelebration (st w) = false /\
  audioContextRef w = true.
Proof.
  intros Hr Act.
  destruct (reachable_tidy _ Hr) as (Ha & Hc & Hs & _).
  pose proof (Ha Act) as Hin.
  destruct (reachable_run _ Hr Act) as (i & r & sv & (_ & Ht & _) & _).
  split; [exact Hin|]. split; [exact Ht|]. split.
  - destruct (showCelebration (st w)) eqn:Esc; [|reflexivity].
    exfalso. assert (Ep : phase (st w) = Complete) by (apply Hs; reflexivity).
    destruct Hin as [E | [E | E]]; congruence.
  - apply (reachable_heard _ Hr).
    destruct Hin as [E | [E | E]]; rewrite E; discriminate.
Qed.

Lemma active_session_state_witness :
  reachable midInhale /\ isActive (st midInhale) = true /\
  inCycle (phase (st midInhale)) /\
  1 <= timeLeft (st midInhale) <= INITIAL_TIME /\
  showCelebration (st midInhale) = false /\
  audioContextRef midInhale = true.
Proof.
  split; [exact midInhale_reachable|]. split; [vm_compute; reflexivity|].
  apply (active_session_state midInhale midInhale_reachable).
  vm_compute. reflexivity.
Defined.

(** ** The pending timers *)

(** X7. At every moment at most one interval and at most one timeout are
    pending.  An inactive session has no pending timer at all; an active one
    has exactly one interval, the one [timerIntervalRef] names, ticking
    every 1000 ms with its next tick at most a second away. *)
Theorem pending_timers (w : World) :
  reachable w ->
  (List.length (filter isInterval (timers w)) <= 1)%nat /\
  (List.length (filter isTimeout (timers w)) <= 1)%nat /\
  (isActive (st w) = false -> timers w = []) /\
  (isActive (st w) = true ->
   exists t,
     filter isInterval (timers w) = [t] /\
     timerIntervalRef w = Some (tid t) /\
     kind t = Interval 1000 /\
     now w < due t <= now w + 1000).
Proof.
  intros Hr.
  destruct (Inv_timers _ (reachable_Inv _ Hr)) as (H1 & H2 & H3 & H4 & _).
  split; [exact H1|]. split; [exact H2|]. split; [exact H3|].
  intros Act. destruct (H4 Act) as (i & d & Ei & Ef & Hd).
  eexists. split; [exact Ef|]. split; [exact Ei|].
  split; [reflexivity | exact Hd].
Qed.

Lemma pending_timers_witness :
  reachable midInhale /\
  (List.length (filter isInterval (timers midInhale)) <= 1)%nat /\
  (List.length (filter isTimeout (timers midInhale)) <= 1)%nat.
Proof.
  split; [exact midInhale_reachable|].
  destruct (pending_timers midInhale midInhale_reachable) as (H1 & H2 & _).
  split; [exact H1 | exact H2].
Defined.

(** X8. The values a pending callback captured are the current ones: a
    phase callback was built by a render with [isActive = true] and the
    current [holdDuration], so its guard [if (!isActive) return] never
    returns early, and the tick callback captured the current
    [totalSessions].  Every pending timer is due in the future, and a
    pending timeout is the one [phaseTimeoutRef] names. *)
Theorem pending_closures_are_current (w : World) :
  reachable w ->
  Forall (fun t =>
            captures (st w) (callback t) /\ now w < due t /\
            (isTimeout t = true -> phaseTimeoutRef w = Some (tid t)))
    (timers w).
Proof.
  intros Hr.
  destruct (Inv_timers _ (reachable_Inv _ Hr)) as (_ & _ & _ & _ & H).
  apply Forall_forall. exact H.
Qed.

Lemma pending_closures_are_current_witness :
  reachable midInhale /\
  Forall (fun t =>
            captures (st midInhale) (callback t) /\ now midInhale < due t /\
            (isTimeout t = true -> phaseTimeoutRef midInhale = Some (tid t)))
    (timers midInhale).
Proof.
  split; [exact midInhale_reachable|].
  apply (pending_closures_are_current midInhale). exact midInhale_reachable.
Defined.

(** ** Done and Reset *)

(** X9. The Done button of the celebration overlay does what the Reset
    button does: [resetSession] clears no timer itself, but the effects that
    follow [setIsActive(false)] clear the ones [handleReset] clears by hand,
    and the two clicks end in the same world. *)
Theorem done_button_is_reset (w : World) :
  reachable w -> step ClickDone w = step ClickReset w.
Proof. intros Hr. apply done_is_reset_inv. apply reachable_Inv. exact Hr. Qed.

Lemma done_button_is_reset_witness :
  reachable finishedSession /\
  step ClickDone finishedSession = step ClickReset finishedSession.
Proof.
  split; [exact finishedSession_reachable|].
  apply (done_button_is_reset finishedSession).
  exact finishedSession_reachable.
Defined.

(** ** The session counter *)





(** ** Pause and resume *)

(** X12. Pausing an active session and starting it again gives back the
    state of before the pause, but not its timers: the clock starts a whole
    second anew (the part of the second that had passed is lost), and no
    phase transition is registered, because the start/pause effect starts
    the breathing cycle from Ready only.  From then on the phase stays what
    it was while the clock runs down. *)
Theorem resume_freezes_phase (w : World) :
  reachable w -> reliable (platform w) -> isActive (st w) = true ->
  exists w1 w2,
    step ClickStartPause w = Ret tt w1 /\
    step ClickStartPause w1 = Ret tt w2 /\
    st w2 = st w /\
    forall ms,
      Z.of_N ms < 1000 * timeLeft (st w) ->
      exists w',
        elapse ms w2 = Ret tt w' /\
        isActive (st w') = true /\
        phase (st w') = phase (st w) /\
        timeLeft (st w') = timeLeft (st w) - Z.of_N ms / 1000 /\
        filter isTimeout (timers w') = [].
Proof.
  intros Hr HR Act.
  destruct (post_reliable _ _ _ (pause_resume w Hr Act) HR)
    as (w1 & E1 & _ & Hn1 & HP).
  assert (Hp1 : platform w1 = platform w).
  { pose proof (step_inv ClickStartPause w (reachable_Inv _ Hr) I) as HK.
    rewrite E1 in HK. destruct HK as [(_ & Hp & _) _]. exact Hp. }
  assert (HR1 : reliable (platform w1)) by (rewrite Hp1; exact HR).
  destruct (post_reliable _ _ _ HP HR1)
    as (w2 & E2 & Hs2 & _ & Hp2 & _ & i & HRun).
  exists w1, w2. split; [exact E1|]. split; [exact E2|]. split; [exact Hs2|].
  intros ms Hms.
  assert (HR2 : reliable (platform w2)) by (rewrite Hp2; exact HR).
  rewrite <- Hs2 in Hms.
  destruct (post_reliable _ _ _ (frozen_run w2 i ms HRun Hms) HR2)
    as (w' & E' & Ha' & Hph' & Ht' & Hf').
  exists w'. rewrite <- Hs2. auto.
Qed.

Lemma resume_freezes_phase_witness :
  reachable midInhale /\ reliable (platform midInhale) /\
  isActive (st midInhale) = true /\
  exists w1 w2,
    step ClickStartPause midInhale = Ret tt w1 /\
    step ClickStartPause w1 = Ret tt w2 /\
    st w2 = st midInhale.
Proof.
  split; [exact midInhale_reachable|]. split; [exact quiet_reliable|].
  split; [vm_compute; reflexivity|].
  destruct (resume_freezes_phase midInhale midInhale_reachable
              quiet_reliable) as (w1 & w2 & E1 & E2 & Hs & _).
  - vm_compute. reflexivity.
  - exists w1, w2. split; [exact E1|]. split; [exact E2 | exact Hs].
Defined.

(** ** Tones *)

(** X13. Outside Ready the oscillator started last is the cue of the phase
    on screen: 300 Hz for Inhale, 440 Hz for Hold, 350 Hz for Exhale (sine)
    and the 600 Hz triangle for Complete. *)
Theorem last_tone_is_cue_of_phase (w : World) :
  reachable w -> phase (st w) <> Ready ->
  lastTone w = cue (phase (st w)).
Proof. intros Hr Hn. apply (reachable_heard _ Hr). exact Hn. Qed.

Lemma last_tone_is_cue_of_phase_witness :
  reachable finishedSession /\ phase (st finishedSession) <> Ready /\
  lastTone finishedSession = Some (600, triangle).
Proof.
  split; [exact finishedSession_reachable|].
  assert (Hn : phase (st finishedSession) <> Ready)
    by (rewrite finishedSession_state; discriminate).
  split; [exact Hn|].
  rewrite (last_tone_is_cue_of_phase finishedSession
             finishedSession_reachable Hn).
  rewrite finishedSession_state. reflexivity.
Defined.

(** ** The circle animation *)

(** X14. The circle animation spans the phase.  When a click on the start
    button or the passing of a millisecond brings an active session into a
    new phase, the variant the circle animates to has a transition duration,
    and the timeout that ends the phase is due exactly that many seconds
    later. *)
Theorem animation_spans_phase (w : World) (e : Event) (w' : World) :
  reachable w -> e = ClickStartPause \/ e = Elapse 1 ->
  step e w = Ret tt w' ->
  isActive (st w') = true -> phase (st w') <> phase (st w) ->
  exists t d,
    In t (timers w') /\ isTimeout t = true /\
    duration (circleTarget (st w')) = Some d /\
    due t = now w' + 1000 * d.
Proof.
  intros Hr [-> | ->] E Act Hph.
  - apply (click_start_entry w w' (reachable_Inv _ Hr) E Act Hph).
  - cbn [step] in E. rewrite elapse_1 in E.
    apply (ms_step_entry w w' (reachable_Inv _ Hr) E Act Hph).
Qed.

Lemma animation_spans_phase_witness :
  reachable firstVisit /\
  exists w',
    step ClickStartPause firstVisit = Ret tt w' /\
    isActive (st w') = true /\ phase (st w') <> phase (st firstVisit) /\
    exists t d,
      In t (timers w') /\ isTimeout t = true /\
      duration (circleTarget (st w')) = Some d /\
      due t = now w' + 1000 * d.
Proof.
  split; [exact firstVisit_reachable|].
  exists (final (step ClickStartPause firstVisit)).
  assert (E : step ClickStartPause firstVisit
              = Ret tt (final (step ClickStartPause firstVisit)))
    by (vm_compute; reflexivity).
  assert (Act : isActive (st (final (step ClickStartPause firstVisit))) = true)
    by (vm_compute; reflexivity).
  assert (Hph : phase (st (final (step ClickStartPause firstVisit)))
                <> phase (st firstVisit))
    by (vm_compute; discriminate).
  split; [exact E|]. split; [exact Act|]. split; [exact Hph|].
  exact (animation_spans_phase firstVisit ClickStartPause _
           firstVisit_reachable (or_introl eq_refl) E Act Hph).
Defined.

(** ** Whole sessions *)



(** ** The hold selector *)

(** X16. On every reachable screen exactly one button of the hold selector
    is highlighted, the one of the current hold duration; the buttons are
    disabled exactly while the session is active. *)
Theorem one_hold_button_highlighted (w : World) :
  reachable w ->
  filter highlighted (holdButtons (st w))
  = [mkHoldButton (holdDuration (st w)) true (isActive (st w))].
Proof.
  intros Hr. destruct (reachable_Inv _ Hr) as (_ & Hh & _).
  cbv [holdButtons]. destruct (st w) as [tl act ph h tot sc].
  cbn [holdDuration isActive] in *.
  cbv [holdOptions In] in Hh.
  destruct Hh as [<- | [<- | [<- | []]]]; reflexivity.
Qed.

Lemma one_hold_button_highlighted_witness :
  reachable midInhale /\
  filter highlighted (holdButtons (st midInhale))
  = [mkHoldButton 1 true true].
Proof.
  split; [exact midInhale_reachable|].
  rewrite (one_hold_button_highlighted midInhale midInhale_reachable).
  vm_compute. reflexivity.
Defined.
